(** * The session cache of the CloudWatch exporter (pkg/sessions.go)

    A shallow embedding of [sessionCache]: its constructor
    [NewSessionCache], the bulk operations [Refresh] and [Clear], the seven
    accessors and the per-service client builders, followed by the
    properties of the cache lifecycle.

    Conventions of the embedding.
    - Go maps are [gmap]s.  A map value that may be the nil interface is an
      [option]; a [*clientCache] stored in a map is the record itself, since
      every pointer stored by the constructor is fresh and never shared.
    - A [*string] parameter of an exported accessor is an [option string];
      dereferencing [None] panics.
    - The mutex [mu] guards concurrent callers only; the embedding is the
      sequential semantics and does not model it.
    - Every call of a client builder is an effect.  Operations return the
      list of builder calls they made, next to the new state. *)

From stdpp Require Import gmap strings list fin_maps.
From Stdlib Require Import ZArith.

Local Open Scope string_scope.

(** ** Types declared elsewhere in the package *)

(** Modelled from the spec: the struct [Role] is declared in another file of
    the package.  The spec gives it an optional target-role identifier and an
    optional external-id token, compared by value; the code reads them as
    [role.RoleArn] and [role.ExternalID], the empty string meaning absent. *)
Record Role := { RoleArn : string; ExternalID : string }.

#[global] Instance Role_eq_dec : EqDecision Role.
Proof. solve_decision. Defined.

#[global] Instance Role_countable : Countable Role.
Proof.
  refine (inj_countable' (λ r, (RoleArn r, ExternalID r))
                         (λ p, {| RoleArn := p.1; ExternalID := p.2 |}) _).
  by intros [].
Defined.

(** Modelled from the spec: the interface [Logger] is declared in another file
    of the package.  The cache only ever asks it [IsDebugEnabled()], which the
    spec describes as an ambient flag supplied at construction. *)
Record Logger := { IsDebugEnabled : bool }.

(** Modelled from the spec: the job structs are declared in another file of
    the package.  A discovery job and a static job each name a list of roles
    and a list of regions ([.Roles], [.Regions]); no other field is read by
    the constructor. *)
Record Job := { JobRoles : list Role; JobRegions : list string }.
Record Static := { StaticRoles : list Role; StaticRegions : list string }.
Record DiscoveryConf := { Jobs : list Job }.

(** Modelled from the spec: [ScrapeConf] is declared in another file of the
    package; the constructor reads [config.StsRegion],
    [config.Discovery.Jobs] and [config.Static]. *)
Record ScrapeConf := {
  StsRegion : string;
  Discovery : DiscoveryConf;
  StaticJobs : list Static
}.

(** ** The part of the AWS SDK the builders configure *)

Inductive LogLevelType := LogDebugWithHTTPBody.
Inductive STSRegionalEndpointType := RegionalSTSEndpoint.
Inductive SharedConfigStateType := SharedConfigEnable.

(** [endpoints.ResolverFunc]: the default resolver, or the constant resolver
    installed when [AWS_ENDPOINT_URL] is set. *)
Inductive ResolverFunc :=
  | DefaultResolverEndpointFor
  | ConstantResolver (url : string).

(** [client.DefaultRetryer]; durations in seconds. *)
Record DefaultRetryer := {
  NumMaxRetries : Z;
  MaxThrottleDelay : Z;
  MinThrottleDelay : Z;
  MaxRetryDelay : Z;
  MinRetryDelay : Z
}.

(** [*session.Session], as [createAWSSession] configures it. *)
Record Session := {
  sessSharedConfigState : SharedConfigStateType;
  sessCredentialsChainVerboseErrors : option bool;
  sessEndpointResolver : ResolverFunc;
  sessLogLevel : option LogLevelType
}.

(** [stscreds.NewCredentials(sess, roleArn, setExternalID(id))]. *)
Record AssumeRoleProvider := {
  arSession : option Session;
  arRoleARN : string;
  arExternalID : option string
}.

(** [aws.Config], the fields the builders set. *)
Record Config := {
  CredentialsChainVerboseErrors : option bool;
  Credentials : option AssumeRoleProvider;
  Endpoint : option string;
  Region : option string;
  LogLevel : option LogLevelType;
  MaxRetries : option Z;
  Retryer : option DefaultRetryer;
  STSRegionalEndpoint : option STSRegionalEndpointType
}.

Definition withCredentials (p : AssumeRoleProvider) (c : Config) : Config :=
  {| CredentialsChainVerboseErrors := CredentialsChainVerboseErrors c;
     Credentials := Some p;
     Endpoint := Endpoint c; Region := Region c; LogLevel := LogLevel c;
     MaxRetries := MaxRetries c; Retryer := Retryer c;
     STSRegionalEndpoint := STSRegionalEndpoint c |}.

Definition withEndpoint (e : string) (c : Config) : Config :=
  {| CredentialsChainVerboseErrors := CredentialsChainVerboseErrors c;
     Credentials := Credentials c;
     Endpoint := Some e; Region := Region c; LogLevel := LogLevel c;
     MaxRetries := MaxRetries c; Retryer := Retryer c;
     STSRegionalEndpoint := STSRegionalEndpoint c |}.

Definition withLogLevel (l : LogLevelType) (c : Config) : Config :=
  {| CredentialsChainVerboseErrors := CredentialsChainVerboseErrors c;
     Credentials := Credentials c;
     Endpoint := Endpoint c; Region := Region c; LogLevel := Some l;
     MaxRetries := MaxRetries c; Retryer := Retryer c;
     STSRegionalEndpoint := STSRegionalEndpoint c |}.

Definition WithRegion (r : string) (c : Config) : Config :=
  {| CredentialsChainVerboseErrors := CredentialsChainVerboseErrors c;
     Credentials := Credentials c;
     Endpoint := Endpoint c; Region := Some r; LogLevel := LogLevel c;
     MaxRetries := MaxRetries c; Retryer := Retryer c;
     STSRegionalEndpoint := STSRegionalEndpoint c |}.

Definition WithSTSRegionalEndpoint (e : STSRegionalEndpointType) (c : Config)
  : Config :=
  {| CredentialsChainVerboseErrors := CredentialsChainVerboseErrors c;
     Credentials := Credentials c;
     Endpoint := Endpoint c; Region := Region c; LogLevel := LogLevel c;
     MaxRetries := MaxRetries c; Retryer := Retryer c;
     STSRegionalEndpoint := Some e |}.

(** The service a client talks to: which SDK constructor ([sts.New],
    [cloudwatch.New], ...) made it. *)
Inductive ServiceKind :=
  | STS | CloudWatch | Tagging | AutoScaling | EC2 | DMS | APIGateway.

#[global] Instance ServiceKind_eq_dec : EqDecision ServiceKind.
Proof. solve_decision. Defined.

(** A service client: the result of [svc.New(sess, config)].  The SDK
    constructors are outside the repository; a client is the record of what
    the constructor was given. *)
Record Client := {
  clService : ServiceKind;
  clSession : option Session;
  clConfig : Config
}.

(** ** Client builders *)

Definition setExternalID (ID : string) : option string :=
  if decide (ID ≠ "") then Some ID else None.

Definition setSTSCreds (sess : option Session) (config : Config) (role : Role)
  : Config :=
  if decide (RoleArn role ≠ "") then
    withCredentials {| arSession := sess; arRoleARN := RoleArn role;
                       arExternalID := setExternalID (ExternalID role) |} config
  else config.

Definition getAwsRetryer : DefaultRetryer :=
  {| NumMaxRetries := 5;
     MaxThrottleDelay := 10; MinThrottleDelay := 1;
     MaxRetryDelay := 3; MinRetryDelay := 1 |}.

Definition createAWSSession (resolver : ResolverFunc) (isDebugEnabled : bool)
  : Session :=
  {| sessSharedConfigState := SharedConfigEnable;
     sessCredentialsChainVerboseErrors := Some true;
     sessEndpointResolver := resolver;
     sessLogLevel := if isDebugEnabled then Some LogDebugWithHTTPBody else None |}.

Definition debugLog (isDebugEnabled : bool) (config : Config) : Config :=
  if isDebugEnabled then withLogLevel LogDebugWithHTTPBody config else config.

(** [fmt.Sprintf(format, region)] for a format with one [%s]: the text before
    it, the region, the text after it. *)
Definition Sprintf (before region after : string) : string :=
  (before ++ region ++ after)%string.

Definition createStsSession (sess : option Session) (role : Role)
    (region : string) (fips isDebugEnabled : bool) : Client :=
  let maxStsRetries := 5%Z in
  let config :=
    {| CredentialsChainVerboseErrors := None; Credentials := None;
       Endpoint := None; Region := None; LogLevel := None;
       MaxRetries := Some maxStsRetries; Retryer := None;
       STSRegionalEndpoint := None |} in
  let config :=
    if decide (region ≠ "")
    then WithSTSRegionalEndpoint RegionalSTSEndpoint (WithRegion region config)
    else config in
  let config :=
    if fips
    then withEndpoint (Sprintf "https://sts-fips." region ".amazonaws.com")
                      config
    else config in
  let config := debugLog isDebugEnabled config in
  {| clService := STS; clSession := sess;
     clConfig := setSTSCreds sess config role |}.

Definition createCloudwatchSession (sess : option Session) (region : string)
    (role : Role) (fips isDebugEnabled : bool) : Client :=
  let config :=
    {| CredentialsChainVerboseErrors := None; Credentials := None;
       Endpoint := None; Region := Some region; LogLevel := None;
       MaxRetries := None; Retryer := Some getAwsRetryer;
       STSRegionalEndpoint := None |} in
  let config :=
    if fips
    then withEndpoint
           (Sprintf "https://monitoring-fips." region ".amazonaws.com") config
    else config in
  let config := debugLog isDebugEnabled config in
  {| clService := CloudWatch; clSession := sess;
     clConfig := setSTSCreds sess config role |}.

Definition createTagSession (sess : option Session) (region : string)
    (role : Role) (isDebugEnabled : bool) : Client :=
  let maxResourceGroupTaggingRetries := 5%Z in
  let config :=
    {| CredentialsChainVerboseErrors := Some true; Credentials := None;
       Endpoint := None; Region := Some region; LogLevel := None;
       MaxRetries := Some maxResourceGroupTaggingRetries; Retryer := None;
       STSRegionalEndpoint := None |} in
  let config := debugLog isDebugEnabled config in
  {| clService := Tagging; clSession := sess;
     clConfig := setSTSCreds sess config role |}.

Definition createASGSession (sess : option Session) (region : string)
    (role : Role) (isDebugEnabled : bool) : Client :=
  let maxAutoScalingAPIRetries := 5%Z in
  let config :=
    {| CredentialsChainVerboseErrors := None; Credentials := None;
       Endpoint := None; Region := Some region; LogLevel := None;
       MaxRetries := Some maxAutoScalingAPIRetries; Retryer := None;
       STSRegionalEndpoint := None |} in
  let config := debugLog isDebugEnabled config in
  {| clService := AutoScaling; clSession := sess;
     clConfig := setSTSCreds sess config role |}.

Definition createEC2Session (sess : option Session) (region : string)
    (role : Role) (fips isDebugEnabled : bool) : Client :=
  let maxEC2APIRetries := 10%Z in
  let config :=
    {| CredentialsChainVerboseErrors := None; Credentials := None;
       Endpoint := None; Region := Some region; LogLevel := None;
       MaxRetries := Some maxEC2APIRetries; Retryer := None;
       STSRegionalEndpoint := None |} in
  let config :=
    if fips
    then withEndpoint (Sprintf "https://ec2-fips." region ".amazonaws.com")
                      config
    else config in
  let config := debugLog isDebugEnabled config in
  {| clService := EC2; clSession := sess;
     clConfig := setSTSCreds sess config role |}.

Definition createDMSSession (sess : option Session) (region : string)
    (role : Role) (fips isDebugEnabled : bool) : Client :=
  let maxDMSAPIRetries := 5%Z in
  let config :=
    {| CredentialsChainVerboseErrors := None; Credentials := None;
       Endpoint := None; Region := Some region; LogLevel := None;
       MaxRetries := Some maxDMSAPIRetries; Retryer := None;
       STSRegionalEndpoint := None |} in
  let config :=
    if fips
    then withEndpoint (Sprintf "https://dms-fips." region ".amazonaws.com")
                      config
    else config in
  let config := debugLog isDebugEnabled config in
  {| clService := DMS; clSession := sess;
     clConfig := setSTSCreds sess config role |}.

Definition createAPIGatewaySession (sess : option Session) (region : string)
    (role : Role) (fips isDebugEnabled : bool) : Client :=
  let maxAPIGatewayAPIRetries := 5%Z in
  let config :=
    {| CredentialsChainVerboseErrors := None; Credentials := None;
       Endpoint := None; Region := Some region; LogLevel := None;
       MaxRetries := Some maxAPIGatewayAPIRetries; Retryer := None;
       STSRegionalEndpoint := None |} in
  let config :=
    if fips
    then withEndpoint
           (Sprintf "https://apigateway-fips." region ".amazonaws.com") config
    else config in
  let config := debugLog isDebugEnabled config in
  {| clService := APIGateway; clSession := sess;
     clConfig := setSTSCreds sess config role |}.

(** ** The cache *)

Local Open Scope list_scope.

Record clientCache := {
  onlyStatic : bool;
  cloudwatch : option Client;
  tagging : option Client;
  asg : option Client;
  ec2 : option Client;
  dms : option Client;
  apiGateway : option Client
}.

(** [&clientCache{}] and [&clientCache{onlyStatic: true}]. *)
Definition newClientCache (static : bool) : clientCache :=
  {| onlyStatic := static; cloudwatch := None; tagging := None; asg := None;
     ec2 := None; dms := None; apiGateway := None |}.

Definition setCloudwatch (c : option Client) (e : clientCache) : clientCache :=
  {| onlyStatic := onlyStatic e; cloudwatch := c; tagging := tagging e;
     asg := asg e; ec2 := ec2 e; dms := dms e; apiGateway := apiGateway e |}.
Definition setTagging (c : option Client) (e : clientCache) : clientCache :=
  {| onlyStatic := onlyStatic e; cloudwatch := cloudwatch e; tagging := c;
     asg := asg e; ec2 := ec2 e; dms := dms e; apiGateway := apiGateway e |}.
Definition setAsg (c : option Client) (e : clientCache) : clientCache :=
  {| onlyStatic := onlyStatic e; cloudwatch := cloudwatch e;
     tagging := tagging e; asg := c; ec2 := ec2 e; dms := dms e;
     apiGateway := apiGateway e |}.
Definition setEc2 (c : option Client) (e : clientCache) : clientCache :=
  {| onlyStatic := onlyStatic e; cloudwatch := cloudwatch e;
     tagging := tagging e; asg := asg e; ec2 := c; dms := dms e;
     apiGateway := apiGateway e |}.
Definition setDms (c : option Client) (e : clientCache) : clientCache :=
  {| onlyStatic := onlyStatic e; cloudwatch := cloudwatch e;
     tagging := tagging e; asg := asg e; ec2 := ec2 e; dms := c;
     apiGateway := apiGateway e |}.
Definition setApiGateway (c : option Client) (e : clientCache) : clientCache :=
  {| onlyStatic := onlyStatic e; cloudwatch := cloudwatch e;
     tagging := tagging e; asg := asg e; ec2 := ec2 e; dms := dms e;
     apiGateway := c |}.

Record sessionCache := {
  stsRegion : string;
  session : option Session;
  endpointResolver : ResolverFunc;
  stscache : gmap Role (option Client);
  clients : gmap Role (gmap string clientCache);
  cleared : bool;
  refreshed : bool;
  fips : bool;
  logger : Logger
}.

Definition setSession (x : option Session) (s : sessionCache) : sessionCache :=
  {| stsRegion := stsRegion s; session := x;
     endpointResolver := endpointResolver s; stscache := stscache s;
     clients := clients s; cleared := cleared s; refreshed := refreshed s;
     fips := fips s; logger := logger s |}.
Definition setStscache (x : gmap Role (option Client)) (s : sessionCache)
  : sessionCache :=
  {| stsRegion := stsRegion s; session := session s;
     endpointResolver := endpointResolver s; stscache := x;
     clients := clients s; cleared := cleared s; refreshed := refreshed s;
     fips := fips s; logger := logger s |}.
Definition setClients (x : gmap Role (gmap string clientCache))
    (s : sessionCache) : sessionCache :=
  {| stsRegion := stsRegion s; session := session s;
     endpointResolver := endpointResolver s; stscache := stscache s;
     clients := x; cleared := cleared s; refreshed := refreshed s;
     fips := fips s; logger := logger s |}.
Definition setPhase (c r : bool) (s : sessionCache) : sessionCache :=
  {| stsRegion := stsRegion s; session := session s;
     endpointResolver := endpointResolver s; stscache := stscache s;
     clients := clients s; cleared := c; refreshed := r;
     fips := fips s; logger := logger s |}.

(** [m[role][region]] read with the comma-ok form: a missing role yields the
    nil inner map, and indexing the nil map yields no entry. *)
Definition lookupEntry (m : gmap Role (gmap string clientCache))
    (role : Role) (region : string) : option clientCache :=
  m !! role ≫= λ regions, regions !! region.

Definition entry (s : sessionCache) (role : Role) (region : string)
  : option clientCache :=
  lookupEntry (clients s) role region.

(** [m[role][region] = e], for a role whose inner map exists. *)
Definition storeEntry (role : Role) (region : string) (e : clientCache)
    (m : gmap Role (gmap string clientCache))
  : gmap Role (gmap string clientCache) :=
  alter (λ regions, <[region := e]> regions) role m.

(** [for k, v := range m { body }], threading the variables the body
    assigns.  The order in which Go visits the keys is unspecified; every
    property below is independent of it. *)
Definition rangeMap {K V S : Type} `{Countable K} (m : gmap K V)
    (body : K → V → S → S) (s : S) : S :=
  foldl (λ acc kv, body kv.1 kv.2 acc) s (map_to_list m).

(** ** Construction *)

Definition ensureRole (role : Role)
    (st : gmap Role (option Client) * gmap Role (gmap string clientCache))
  : gmap Role (option Client) * gmap Role (gmap string clientCache) :=
  let '(stscache, roleCache) := st in
  let stscache :=
    if decide (is_Some (stscache !! role)) then stscache
    else <[role := None]> stscache in
  let roleCache :=
    if decide (is_Some (roleCache !! role)) then roleCache
    else <[role := ∅]> roleCache in
  (stscache, roleCache).

Definition addDiscoveryJob
    (st : gmap Role (option Client) * gmap Role (gmap string clientCache))
    (discoveryJob : Job) :=
  foldl (λ st role,
           let '(stscache, roleCache) := ensureRole role st in
           (stscache,
            foldl (λ roleCache region,
                     storeEntry role region (newClientCache false) roleCache)
                  roleCache (JobRegions discoveryJob)))
        st (JobRoles discoveryJob).

Definition addStaticJob
    (st : gmap Role (option Client) * gmap Role (gmap string clientCache))
    (staticJob : Static) :=
  foldl (λ st role,
           let '(stscache, roleCache) := ensureRole role st in
           (stscache,
            foldl (λ roleCache region,
                     if decide (is_Some (lookupEntry roleCache role region))
                     then roleCache
                     else storeEntry role region (newClientCache true) roleCache)
                  roleCache (StaticRegions staticJob)))
        st (StaticRoles staticJob).

(** [envEndpointURL] is the value of [os.Getenv("AWS_ENDPOINT_URL")]. *)
Definition NewSessionCache (envEndpointURL : string) (config : ScrapeConf)
    (fips : bool) (logger : Logger) : sessionCache :=
  let st := (∅, ∅) in
  let st := foldl addDiscoveryJob st (Jobs (Discovery config)) in
  let st := foldl addStaticJob st (StaticJobs config) in
  let endpointResolver :=
    if decide (envEndpointURL ≠ "") then ConstantResolver envEndpointURL
    else DefaultResolverEndpointFor in
  {| stsRegion := StsRegion config;
     session := None;
     endpointResolver := endpointResolver;
     stscache := st.1;
     clients := st.2;
     fips := fips;
     cleared := false;
     refreshed := false;
     logger := logger |}.

(** ** Builder calls *)

Inductive call :=
  | call_createAWSSession (resolver : ResolverFunc) (isDebugEnabled : bool)
  | call_createStsSession (sess : option Session) (role : Role)
      (region : string) (fips isDebugEnabled : bool)
  | call_createCloudwatchSession (sess : option Session) (region : string)
      (role : Role) (fips isDebugEnabled : bool)
  | call_createTagSession (sess : option Session) (region : string)
      (role : Role) (isDebugEnabled : bool)
  | call_createASGSession (sess : option Session) (region : string)
      (role : Role) (isDebugEnabled : bool)
  | call_createEC2Session (sess : option Session) (region : string)
      (role : Role) (fips isDebugEnabled : bool)
  | call_createDMSSession (sess : option Session) (region : string)
      (role : Role) (fips isDebugEnabled : bool)
  | call_createAPIGatewaySession (sess : option Session) (region : string)
      (role : Role) (fips isDebugEnabled : bool).

(** ** Clear *)

Definition clearClients (e : clientCache) : clientCache :=
  let e := setCloudwatch None e in
  let e := setTagging None e in
  let e := setAsg None e in
  let e := setEc2 None e in
  let e := setDms None e in
  let e := setApiGateway None e in
  e.

(** In the loops of [Clear] and [Refresh], [regions] is the inner map
    [s.clients[role]] itself (Go maps are references) and [e] the entry
    [s.clients[role][region]] points to: the assignments through
    [s.clients[role][region]] update [regions] in place, which the model
    writes back under [role]. *)
Definition Clear (s : sessionCache) : sessionCache :=
  if cleared s then s else
  let stscache :=
    rangeMap (stscache s) (λ role _ stscache, <[role := None]> stscache)
             (stscache s) in
  let clients :=
    rangeMap (clients s)
      (λ role regions clients,
         <[role := rangeMap regions
                     (λ region e regions, <[region := clearClients e]> regions)
                     regions]> clients)
      (clients s) in
  setPhase true false (setClients clients (setStscache stscache s)).

(** ** Refresh *)

(** The body of the inner loop of [Refresh] on the entry at
    [(role, region)]: the entry after the assignments, and the builder calls
    made. *)
Definition refreshClients (s : sessionCache) (role : Role) (region : string)
    (e : clientCache) : clientCache * list call :=
  let sess := session s in
  let dbg := IsDebugEnabled (logger s) in
  let e := setCloudwatch
             (Some (createCloudwatchSession sess region role (fips s) dbg)) e in
  let log := [call_createCloudwatchSession sess region role (fips s) dbg] in
  if onlyStatic e then (e, log) else
  let e := setTagging (Some (createTagSession sess region role dbg)) e in
  let e := setAsg (Some (createASGSession sess region role dbg)) e in
  let e := setEc2 (Some (createEC2Session sess region role (fips s) dbg)) e in
  let e := setDms (Some (createDMSSession sess region role (fips s) dbg)) e in
  let e := setApiGateway
             (Some (createAPIGatewaySession sess region role (fips s) dbg)) e in
  (e, log ++ [call_createTagSession sess region role dbg;
              call_createASGSession sess region role dbg;
              call_createEC2Session sess region role (fips s) dbg;
              call_createDMSSession sess region role (fips s) dbg;
              call_createAPIGatewaySession sess region role (fips s) dbg]).

Definition Refresh (s : sessionCache) : sessionCache * list call :=
  if refreshed s then (s, []) else
  let dbg := IsDebugEnabled (logger s) in
  let '(s, log) :=
    match session s with
    | None => (setSession (Some (createAWSSession (endpointResolver s) dbg)) s,
               [call_createAWSSession (endpointResolver s) dbg])
    | Some _ => (s, [])
    end in
  let '(stscache, log) :=
    rangeMap (stscache s)
      (λ role _ '(stscache, log),
         (<[role := Some (createStsSession (session s) role (stsRegion s)
                                           (fips s) dbg)]> stscache,
          log ++ [call_createStsSession (session s) role (stsRegion s)
                                        (fips s) dbg]))
      (stscache s, log) in
  let '(clients, log) :=
    rangeMap (clients s)
      (λ role regions '(clients, log),
         let '(regions, log) :=
           rangeMap regions
             (λ region e '(regions, log),
                let '(e, calls) := refreshClients s role region e in
                (<[region := e]> regions, log ++ calls))
             (regions, log) in
         (<[role := regions]> clients, log))
      (clients s, log) in
  (setPhase false true (setClients clients (setStscache stscache s)), log).

(** ** Accessors *)

(** What a call does: it returns a value, a new state and the builder calls
    it made, or it panics after the builder calls it made. *)
Inductive outcome (A : Type) :=
  | Returned (a : A) (s : sessionCache) (log : list call)
  | Panicked (log : list call).
Arguments Returned {A} a s log.
Arguments Panicked {A} log.

Definition GetSTS (role : Role) (s : sessionCache) : outcome Client :=
  match stscache s !! role with
  | Some (Some sess) => Returned sess s []
  | _ =>
      let dbg := IsDebugEnabled (logger s) in
      let c := createStsSession (session s) role (stsRegion s) (fips s) dbg in
      Returned c (setStscache (<[role := Some c]> (stscache s)) s)
        [call_createStsSession (session s) role (stsRegion s) (fips s) dbg]
  end.

(** The six accessors keyed by region and role share one shape.  The region
    pointer is dereferenced first.  When the entry is missing, the assignment
    [s.clients[role][*region].f = build(...)] evaluates its right-hand side
    and then stores through the nil entry pointer, which panics. *)
Definition GetCloudwatch (region : option string) (role : Role)
    (s : sessionCache) : outcome Client :=
  match region with
  | None => Panicked []
  | Some region =>
      let dbg := IsDebugEnabled (logger s) in
      let c := createCloudwatchSession (session s) region role (fips s) dbg in
      let calls :=
        [call_createCloudwatchSession (session s) region role (fips s) dbg] in
      match entry s role region with
      | Some sess =>
          match cloudwatch sess with
          | Some cached => Returned cached s []
          | None =>
              Returned c
                (setClients
                   (storeEntry role region (setCloudwatch (Some c) sess)
                               (clients s)) s)
                calls
          end
      | None => Panicked calls
      end
  end.

Definition GetTagging (region : option string) (role : Role)
    (s : sessionCache) : outcome Client :=
  match region with
  | None => Panicked []
  | Some region =>
      let c := createTagSession (session s) region role (fips s) in
      let calls := [call_createTagSession (session s) region role (fips s)] in
      match entry s role region with
      | Some sess =>
          match tagging sess with
          | Some cached => Returned cached s []
          | None =>
              Returned c
                (setClients
                   (storeEntry role region (setTagging (Some c) sess)
                               (clients s)) s)
                calls
          end
      | None => Panicked calls
      end
  end.

Definition GetASG (region : option string) (role : Role)
    (s : sessionCache) : outcome Client :=
  match region with
  | None => Panicked []
  | Some region =>
      let c := createASGSession (session s) region role (fips s) in
      let calls := [call_createASGSession (session s) region role (fips s)] in
      match entry s role region with
      | Some sess =>
          match asg sess with
          | Some cached => Returned cached s []
          | None =>
              Returned c
                (setClients
                   (storeEntry role region (setAsg (Some c) sess)
                               (clients s)) s)
                calls
          end
      | None => Panicked calls
      end
  end.

Definition GetEC2 (region : option string) (role : Role)
    (s : sessionCache) : outcome Client :=
  match region with
  | None => Panicked []
  | Some region =>
      let dbg := IsDebugEnabled (logger s) in
      let c := createEC2Session (session s) region role (fips s) dbg in
      let calls :=
        [call_createEC2Session (session s) region role (fips s) dbg] in
      match entry s role region with
      | Some sess =>
          match ec2 sess with
          | Some cached => Returned cached s []
          | None =>
              Returned c
                (setClients
                   (storeEntry role region (setEc2 (Some c) sess)
                               (clients s)) s)
                calls
          end
      | None => Panicked calls
      end
  end.

Definition GetDMS (region : option string) (role : Role)
    (s : sessionCache) : outcome Client :=
  match region with
  | None => Panicked []
  | Some region =>
      let dbg := IsDebugEnabled (logger s) in
      let c := createDMSSession (session s) region role (fips s) dbg in
      let calls :=
        [call_createDMSSession (session s) region role (fips s) dbg] in
      match entry s role region with
      | Some sess =>
          match dms sess with
          | Some cached => Returned cached s []
          | None =>
              Returned c
                (setClients
                   (storeEntry role region (setDms (Some c) sess)
                               (clients s)) s)
                calls
          end
      | None => Panicked calls
      end
  end.

Definition GetAPIGateway (region : option string) (role : Role)
    (s : sessionCache) : outcome Client :=
  match region with
  | None => Panicked []
  | Some region =>
      let dbg := IsDebugEnabled (logger s) in
      let c := createAPIGatewaySession (session s) region role (fips s) dbg in
      let calls :=
        [call_createAPIGatewaySession (session s) region role (fips s) dbg] in
      match entry s role region with
      | Some sess =>
          match apiGateway sess with
          | Some cached => Returned cached s []
          | None =>
              Returned c
                (setClients
                   (storeEntry role region (setApiGateway (Some c) sess)
                               (clients s)) s)
                calls
          end
      | None => Panicked calls
      end
  end.

(** ** The slots of an entry, by service *)

Definition slot (k : ServiceKind) (e : clientCache) : option Client :=
  match k with
  | STS => None
  | CloudWatch => cloudwatch e
  | Tagging => tagging e
  | AutoScaling => asg e
  | EC2 => ec2 e
  | DMS => dms e
  | APIGateway => apiGateway e
  end.

Definition setSlot (k : ServiceKind) (c : option Client) (e : clientCache)
  : clientCache :=
  match k with
  | STS => e
  | CloudWatch => setCloudwatch c e
  | Tagging => setTagging c e
  | AutoScaling => setAsg c e
  | EC2 => setEc2 c e
  | DMS => setDms c e
  | APIGateway => setApiGateway c e
  end.

(** The accessor of a service.  [GetSTS] takes no region. *)
Definition accessor (k : ServiceKind)
  : option string → Role → sessionCache → outcome Client :=
  match k with
  | STS => λ _ role, GetSTS role
  | CloudWatch => GetCloudwatch
  | Tagging => GetTagging
  | AutoScaling => GetASG
  | EC2 => GetEC2
  | DMS => GetDMS
  | APIGateway => GetAPIGateway
  end.

(** The builder call an accessor makes on a miss, and the client it gets. *)
Definition lazyCall (k : ServiceKind) (s : sessionCache) (region : string)
    (role : Role) : call :=
  let dbg := IsDebugEnabled (logger s) in
  match k with
  | STS => call_createStsSession (session s) role (stsRegion s) (fips s) dbg
  | CloudWatch =>
      call_createCloudwatchSession (session s) region role (fips s) dbg
  | Tagging => call_createTagSession (session s) region role (fips s)
  | AutoScaling => call_createASGSession (session s) region role (fips s)
  | EC2 => call_createEC2Session (session s) region role (fips s) dbg
  | DMS => call_createDMSSession (session s) region role (fips s) dbg
  | APIGateway =>
      call_createAPIGatewaySession (session s) region role (fips s) dbg
  end.


(** ** Sequences of calls on the cache *)

(** A call on the [SessionCache] interface; [OpGet STS region role] is
    [GetSTS(role)], whatever [region]. *)
Inductive op :=
  | OpRefresh
  | OpClear
  | OpGet (k : ServiceKind) (region : option string) (role : Role).

Definition step (o : op) (s : sessionCache) : outcome (option Client) :=
  match o with
  | OpRefresh => let '(s', log) := Refresh s in Returned None s' log
  | OpClear => Returned None (Clear s) []
  | OpGet k region role =>
      match accessor k region role s with
      | Returned c s' log => Returned (Some c) s' log
      | Panicked log => Panicked log
      end
  end.

(** Running a sequence of calls: the final state and all builder calls made,
    or a panic, which ends the program. *)
Fixpoint exec (ops : list op) (s : sessionCache) : outcome unit :=
  match ops with
  | [] => Returned tt s []
  | o :: ops =>
      match step o s with
      | Returned _ s' log =>
          match exec ops s' with
          | Returned _ s'' log' => Returned tt s'' (log ++ log')
          | Panicked log' => Panicked (log ++ log')
          end
      | Panicked log => Panicked log
      end
  end.


Definition isSessionCall (c : call) : bool :=
  match c with call_createAWSSession _ _ => true | _ => false end.


(** * Vocabulary of the properties *)

(** ** Runs *)

Definition finalState (o : outcome unit) : option sessionCache :=
  match o with Returned _ s _ => Some s | Panicked _ => None end.

Definition returns (o : outcome unit) : bool :=
  match o with Returned _ _ _ => true | Panicked _ => false end.

(** [reaches s0 ops s]: the calls [ops], made in order on [s0], all return
    and leave the cache in state [s]. *)
Definition reaches (s0 : sessionCache) (ops : list op) (s : sessionCache)
  : Prop :=
  finalState (exec ops s0) = Some s.

(** The state [ops] leave, when they all return. *)
Definition stateAfter (ops : list op) (s : sessionCache) : sessionCache :=
  default s (finalState (exec ops s)).

(** How many session handles a cache may still create. *)
Definition sessionBudget (s : sessionCache) : nat :=
  match session s with Some _ => 0 | None => 1 end.


(** ** What [Clear] and [Refresh] compute *)

Definition clearedStscache (m : gmap Role (option Client))
  : gmap Role (option Client) :=
  (λ _ : option Client, None) <$> m.

Definition clearedClients (m : gmap Role (gmap string clientCache))
  : gmap Role (gmap string clientCache) :=
  (λ regions : gmap string clientCache, clearClients <$> regions) <$> m.

(** [Refresh], step by step: the session handle, the identity clients, the
    regional clients, and the calls each step makes. *)
Definition withSession (s : sessionCache) : sessionCache :=
  match session s with
  | None =>
      setSession
        (Some (createAWSSession (endpointResolver s) (IsDebugEnabled (logger s))))
        s
  | Some _ => s
  end.

Definition sessionCalls (s : sessionCache) : list call :=
  match session s with
  | None =>
      [call_createAWSSession (endpointResolver s) (IsDebugEnabled (logger s))]
  | Some _ => []
  end.

Definition refreshedSts (s : sessionCache) (role : Role) : Client :=
  createStsSession (session s) role (stsRegion s) (fips s)
                   (IsDebugEnabled (logger s)).

Definition stsCalls (s : sessionCache) : list call :=
  map_to_list (stscache s) ≫= λ kv,
    [call_createStsSession (session s) kv.1 (stsRegion s) (fips s)
                           (IsDebugEnabled (logger s))].

Definition regionCalls (s : sessionCache) (role : Role)
    (regions : gmap string clientCache) : list call :=
  map_to_list regions ≫= λ kv, (refreshClients s role kv.1 kv.2).2.

Definition clientCalls (s : sessionCache) : list call :=
  map_to_list (clients s) ≫= λ kv, regionCalls s kv.1 kv.2.

Definition refreshedRegions (s : sessionCache) (role : Role)
    (regions : gmap string clientCache) : gmap string clientCache :=
  map_imap (λ region e, Some (refreshClients s role region e).1) regions.

Definition refreshedState (s : sessionCache) : sessionCache :=
  setPhase false true
    (setClients
       (map_imap (λ role regions, Some (refreshedRegions s role regions))
                 (clients s))
       (setStscache
          (map_imap (λ role _, Some (Some (refreshedSts s role))) (stscache s))
          s)).

(** The client an accessor builds on a miss. *)
Definition lazyClient (k : ServiceKind) (s : sessionCache) (region : string)
    (role : Role) : Client :=
  let dbg := IsDebugEnabled (logger s) in
  match k with
  | STS => createStsSession (session s) role (stsRegion s) (fips s) dbg
  | CloudWatch => createCloudwatchSession (session s) region role (fips s) dbg
  | Tagging => createTagSession (session s) region role (fips s)
  | AutoScaling => createASGSession (session s) region role (fips s)
  | EC2 => createEC2Session (session s) region role (fips s) dbg
  | DMS => createDMSSession (session s) region role (fips s) dbg
  | APIGateway => createAPIGatewaySession (session s) region role (fips s) dbg
  end.

(** ** Clients and flags *)

(** The credential source [setSTSCreds] installs for a role: none for a role
    without [RoleArn], else the assume-role provider for it. *)
Definition assumeRole (sess : option Session) (role : Role)
  : option AssumeRoleProvider :=
  if decide (RoleArn role ≠ "") then
    Some {| arSession := sess; arRoleARN := RoleArn role;
            arExternalID := setExternalID (ExternalID role) |}
  else None.

Definition debugLevel (isDebugEnabled : bool) : option LogLevelType :=
  if isDebugEnabled then Some LogDebugWithHTTPBody else None.




(** ** Keys and slots *)

(** The regions declared for a role. *)
Definition regionKeys (s : sessionCache) (role : Role) : gset string :=
  match clients s !! role with Some regions => dom regions | None => ∅ end.

(** [sameKeys s s']: [s'] has the keys of [s], in the identity map, in the
    outer client map and in every inner client map. *)
Definition sameKeys (s s' : sessionCache) : Prop :=
  dom (stscache s') = dom (stscache s)
  ∧ dom (clients s') = dom (clients s)
  ∧ ∀ role, regionKeys s' role = regionKeys s role.

Definition slotsEmpty (e : clientCache) : Prop :=
  cloudwatch e = None ∧ tagging e = None ∧ asg e = None ∧ ec2 e = None
  ∧ dms e = None ∧ apiGateway e = None.

Definition nonMetricsEmpty (e : clientCache) : Prop :=
  tagging e = None ∧ asg e = None ∧ ec2 e = None ∧ dms e = None
  ∧ apiGateway e = None.

(** Every static-only entry has only its metrics slot, if any, filled. *)
Definition staticClean (s : sessionCache) : Prop :=
  ∀ role region e,
    entry s role region = Some e → onlyStatic e = true → nonMetricsEmpty e.




(** ** The job lists *)

Definition discoveryRoles (config : ScrapeConf) : list Role :=
  Jobs (Discovery config) ≫= JobRoles.
Definition staticRoles (config : ScrapeConf) : list Role :=
  StaticJobs config ≫= StaticRoles.
Definition allRoles (config : ScrapeConf) : list Role :=
  discoveryRoles config ++ staticRoles config.

(** The (role, region) pairs a job with these roles and regions reaches. *)
Definition jobPairs (roles : list Role) (regions : list string)
  : list (Role * string) :=
  roles ≫= λ role, regions ≫= λ region, [(role, region)].

Definition discoveryPairs (config : ScrapeConf) : list (Role * string) :=
  Jobs (Discovery config) ≫= λ job, jobPairs (JobRoles job) (JobRegions job).
Definition staticPairs (config : ScrapeConf) : list (Role * string) :=
  StaticJobs config ≫= λ job, jobPairs (StaticRoles job) (StaticRegions job).

Definition roleSet (config : ScrapeConf) : gset Role :=
  list_to_set (allRoles config).
Definition discoverySet (config : ScrapeConf) : gset (Role * string) :=
  list_to_set (discoveryPairs config).
Definition staticSet (config : ScrapeConf) : gset (Role * string) :=
  list_to_set (staticPairs config).

(** The two components of [ensureRole]. *)
Definition ensureSts (sts : gmap Role (option Client)) (role : Role)
  : gmap Role (option Client) :=
  if decide (is_Some (sts !! role)) then sts else <[role := None]> sts.

Definition ensureClients (role : Role) (rc : gmap Role (gmap string clientCache))
  : gmap Role (gmap string clientCache) :=
  if decide (is_Some (rc !! role)) then rc else <[role := ∅]> rc.

(** The body of the region loop, of a static job or of a discovery job, and
    the loops around it on the client map alone. *)
Definition putRegion (static : bool) (role : Role)
    (rc : gmap Role (gmap string clientCache)) (region : string)
  : gmap Role (gmap string clientCache) :=
  if static then
    if decide (is_Some (lookupEntry rc role region)) then rc
    else storeEntry role region (newClientCache true) rc
  else storeEntry role region (newClientCache false) rc.

Definition putRole (static : bool) (regions : list string)
    (rc : gmap Role (gmap string clientCache)) (role : Role)
  : gmap Role (gmap string clientCache) :=
  foldl (putRegion static role) (ensureClients role rc) regions.

Definition putJob (static : bool) (roles : list Role) (regions : list string)
    (rc : gmap Role (gmap string clientCache))
  : gmap Role (gmap string clientCache) :=
  foldl (putRole static regions) rc roles.

(** What a region loop leaves at a pair it reaches, given what was there. *)
Definition reached (static : bool) (old : option clientCache)
  : option clientCache :=
  if static then Some (default (newClientCache true) old)
  else Some (newClientCache false).

(** ** Readings of the spec that the code does not meet *)

(** [Clear] always leaves every slot empty: in every reachable state, after
    [Clear], every entry has empty slots. *)
Definition Clear_always_empties (s0 : sessionCache) : Prop :=
  ∀ ops s, reaches s0 ops s →
    ∀ role region e, entry (Clear s) role region = Some e → slotsEmpty e.


(** The sets of reachable (role, region) pairs alone fix the key space: two
    topologies with the same pairs get the same role keys and the same
    entries. *)
Definition keys_fixed_by_pairs : Prop :=
  ∀ env config config' fps lg,
    discoverySet config' = discoverySet config →
    staticSet config' = staticSet config →
    dom (stscache (NewSessionCache env config' fps lg))
    = dom (stscache (NewSessionCache env config fps lg))
    ∧ ∀ role region,
        entry (NewSessionCache env config' fps lg) role region
        = entry (NewSessionCache env config fps lg) role region.


(** ** Concrete topologies and call sequences *)

Definition roleX : Role :=
  {| RoleArn := "arn:aws:iam::123:role/X"; ExternalID := "" |}.
Definition roleNone : Role := {| RoleArn := ""; ExternalID := "" |}.

(** The end-to-end scenario of the spec: a discovery job for role X in
    us-east-1 and a static job for the empty role in eu-west-1. *)
Definition scenario : ScrapeConf :=
  {| StsRegion := "";
     Discovery :=
       {| Jobs := [ {| JobRoles := [roleX]; JobRegions := ["us-east-1"] |} ] |};
     StaticJobs :=
       [ {| StaticRoles := [roleNone]; StaticRegions := ["eu-west-1"] |} ] |}.

(** The scenario's cache, with compliance mode on and debug logging off. *)
Definition scenarioCache : sessionCache :=
  NewSessionCache "" scenario true {| IsDebugEnabled := false |}.

Definition noJobs : ScrapeConf :=
  {| StsRegion := ""; Discovery := {| Jobs := [] |}; StaticJobs := [] |}.

(** A static job naming a role and no region. *)
Definition roleWithoutRegion : ScrapeConf :=
  {| StsRegion := ""; Discovery := {| Jobs := [] |};
     StaticJobs := [ {| StaticRoles := [roleX]; StaticRegions := [] |} ] |}.

(** Two topologies that reach the same pairs through different job lists. *)
Definition topologyA : ScrapeConf :=
  {| StsRegion := "";
     Discovery :=
       {| Jobs := [ {| JobRoles := [roleX];
                       JobRegions := ["us-east-1"; "eu-west-1"] |} ] |};
     StaticJobs :=
       [ {| StaticRoles := [roleNone; roleX];
            StaticRegions := ["eu-west-1"] |} ] |}.

Definition topologyB : ScrapeConf :=
  {| StsRegion := "";
     Discovery :=
       {| Jobs := [ {| JobRoles := [roleX]; JobRegions := ["eu-west-1"] |};
                    {| JobRoles := [roleX]; JobRegions := ["us-east-1"] |} ] |};
     StaticJobs :=
       [ {| StaticRoles := [roleX]; StaticRegions := ["eu-west-1"] |};
         {| StaticRoles := [roleNone]; StaticRegions := ["eu-west-1"] |} ] |}.

Definition phaseOps : list op :=
  [OpRefresh; OpGet EC2 (Some "us-east-1") roleX; OpClear;
   OpGet CloudWatch (Some "eu-west-1") roleNone].


Definition staleClearOps : list op :=
  [OpRefresh; OpClear; OpGet CloudWatch (Some "eu-west-1") roleNone].



(** ** Vocabulary of the further properties *)

(** The client [Refresh] builds for service [k] at [(role, region)]: every
    builder is given the logger's debug setting. *)
Definition eagerClient (k : ServiceKind) (s : sessionCache) (region : string)
    (role : Role) : Client :=
  let dbg := IsDebugEnabled (logger s) in
  match k with
  | STS => createStsSession (session s) role (stsRegion s) (fips s) dbg
  | CloudWatch => createCloudwatchSession (session s) region role (fips s) dbg
  | Tagging => createTagSession (session s) region role dbg
  | AutoScaling => createASGSession (session s) region role dbg
  | EC2 => createEC2Session (session s) region role (fips s) dbg
  | DMS => createDMSSession (session s) region role (fips s) dbg
  | APIGateway => createAPIGatewaySession (session s) region role (fips s) dbg
  end.

(** The slots [Refresh] assigns in an entry: the metrics slot, and the five
    others unless the entry is static-only. *)
Definition refreshes (k : ServiceKind) (e : clientCache) : bool :=
  match k with
  | STS => false
  | CloudWatch => true
  | _ => negb (onlyStatic e)
  end.

(** No client is stored anywhere in the cache. *)
Definition allEmpty (s : sessionCache) : Prop :=
  (∀ role v, stscache s !! role = Some v → v = None)
  ∧ ∀ role region e, entry s role region = Some e → slotsEmpty e.







(** The builder call [Refresh] makes for the slot of service [k]. *)
Definition eagerCall (k : ServiceKind) (s : sessionCache) (region : string)
    (role : Role) : call :=
  let dbg := IsDebugEnabled (logger s) in
  match k with
  | STS => call_createStsSession (session s) role (stsRegion s) (fips s) dbg
  | CloudWatch =>
      call_createCloudwatchSession (session s) region role (fips s) dbg
  | Tagging => call_createTagSession (session s) region role dbg
  | AutoScaling => call_createASGSession (session s) region role dbg
  | EC2 => call_createEC2Session (session s) region role (fips s) dbg
  | DMS => call_createDMSSession (session s) region role (fips s) dbg
  | APIGateway =>
      call_createAPIGatewaySession (session s) region role (fips s) dbg
  end.

(** All entries of the client map, one per (role, region) pair. *)
Definition entriesOf (s : sessionCache) : list clientCache :=
  map_to_list (clients s) ≫= λ kv, (map_to_list kv.2).*2.

(** How many clients [Refresh] builds for an entry. *)
Definition refreshCost (e : clientCache) : nat :=
  if onlyStatic e then 1 else 6.

(** ** Slots by key *)





(** * Properties *)

(** ** Range loops that assign at the loop's own key *)

Lemma foldl_pointwise {A B} (f g : A → B → A) (l : list B) (a : A) :
  (∀ a b, f a b = g a b) → foldl f a l = foldl g a l.
Proof.
  intros Hfg. revert a. induction l as [|b l IH]; intros a; simpl; [done|].
  by rewrite Hfg, IH.
Qed.

Section range_loops.
Context {K V : Type} `{Countable K}.
Implicit Types (m acc : gmap K V) (l : list (K * V)).

Lemma foldl_insert_lookup (f : K → V → V) l acc k :
  NoDup l.*1 →
  foldl (λ a kv, <[kv.1 := f kv.1 kv.2]> a) acc l !! k
  = match (list_to_map l : gmap K V) !! k with
    | Some v => Some (f k v)
    | None => acc !! k
    end.
Proof.
  revert acc. induction l as [|[k' v'] l IH]; intros acc Hnd; simpl.
  - by rewrite lookup_empty.
  - apply NoDup_cons in Hnd as [Hk' Hnd]. rewrite IH by done.
    destruct (decide (k' = k)) as [->|Hne].
    + rewrite lookup_insert_eq.
      rewrite (not_elem_of_list_to_map_1 l k) by done.
      by rewrite lookup_insert_eq.
    + rewrite (lookup_insert_ne (list_to_map l)) by done.
      destruct (list_to_map l !! k); [done|].
      by rewrite lookup_insert_ne.
Qed.

(** A loop [for k, v := range m { m[k] = f(k, v) }] rewrites every value
    and leaves the key set alone. *)
Lemma rangeMap_insert (f : K → V → V) (body : K → V → gmap K V → gmap K V) m :
  (∀ k v acc, body k v acc = <[k := f k v]> acc) →
  rangeMap m body m = map_imap (λ k v, Some (f k v)) m.
Proof.
  intros Hbody. unfold rangeMap. apply map_eq; intros k.
  rewrite (foldl_pointwise _ (λ a kv, <[kv.1 := f kv.1 kv.2]> a))
    by (intros; apply Hbody).
  rewrite foldl_insert_lookup by apply NoDup_fst_map_to_list.
  rewrite list_to_map_to_list, map_lookup_imap.
  by destruct (m !! k).
Qed.

Lemma foldl_insert_log {E} (f : K → V → V) (g : K → V → list E)
    (body : K → V → gmap K V * list E → gmap K V * list E) l acc log :
  (∀ k v acc log, body k v (acc, log) = (<[k := f k v]> acc, log ++ g k v)) →
  foldl (λ a kv, body kv.1 kv.2 a) (acc, log) l
  = (foldl (λ a kv, <[kv.1 := f kv.1 kv.2]> a) acc l,
     log ++ (l ≫= λ kv, g kv.1 kv.2)).
Proof.
  intros Hbody. revert acc log.
  induction l as [|[k v] l IH]; intros acc log; simpl.
  - by rewrite app_nil_r.
  - rewrite Hbody, IH. by rewrite <-(assoc_L (++)).
Qed.

(** The same loop when the body also records the calls it makes. *)
Lemma rangeMap_insert_log {E} (f : K → V → V) (g : K → V → list E)
    (body : K → V → gmap K V * list E → gmap K V * list E) m log :
  (∀ k v acc log, body k v (acc, log) = (<[k := f k v]> acc, log ++ g k v)) →
  rangeMap m body (m, log)
  = (map_imap (λ k v, Some (f k v)) m,
     log ++ (map_to_list m ≫= λ kv, g kv.1 kv.2)).
Proof.
  intros Hbody.
  rewrite <-(rangeMap_insert f (λ k v acc, <[k := f k v]> acc) m) by done.
  unfold rangeMap. by apply foldl_insert_log.
Qed.

Lemma map_imap_const_dom (f : K → V → V) m :
  dom (map_imap (λ k v, Some (f k v)) m) = dom m.
Proof.
  apply set_eq; intros k. rewrite !elem_of_dom, map_lookup_imap.
  destruct (m !! k); simpl; split; intros [? ?]; eauto; done.
Qed.
End range_loops.

Lemma map_imap_fmap {K V} `{Countable K} (f : V → V) (m : gmap K V) :
  map_imap (λ _ v, Some (f v)) m = f <$> m.
Proof.
  apply map_eq; intros k. rewrite map_lookup_imap, lookup_fmap.
  by destruct (m !! k).
Qed.

(** ** Closed forms of [Clear] and [Refresh] *)

Lemma Clear_cleared s : cleared s = true → Clear s = s.
Proof. intros Hc. unfold Clear. by rewrite Hc. Qed.

Lemma Clear_not_cleared s :
  cleared s = false →
  Clear s = setPhase true false
              (setClients (clearedClients (clients s))
                 (setStscache (clearedStscache (stscache s)) s)).
Proof.
  intros Hc. unfold Clear. rewrite Hc.
  rewrite (rangeMap_insert (λ _ _, None)) by done.
  rewrite (rangeMap_insert (λ _ regions, clearClients <$> regions)).
  - unfold clearedClients, clearedStscache. by rewrite !map_imap_fmap.
  - intros role regions acc.
    by rewrite (rangeMap_insert (λ _ e, clearClients e)), map_imap_fmap.
Qed.

Lemma Refresh_refreshed s : refreshed s = true → Refresh s = (s, []).
Proof. intros Hr. unfold Refresh. by rewrite Hr. Qed.

Lemma Refresh_not_refreshed s :
  refreshed s = false →
  Refresh s = (refreshedState (withSession s),
               sessionCalls s ++ stsCalls (withSession s)
                 ++ clientCalls (withSession s)).
Proof.
  intros Hr. unfold Refresh. rewrite Hr.
  assert (Hloops : ∀ s1 log0,
    IsDebugEnabled (logger s1) = IsDebugEnabled (logger s) →
    (let '(stscache, log) :=
       rangeMap (stscache s1)
         (λ role _ '(stscache, log),
            (<[role := Some (createStsSession (session s1) role (stsRegion s1)
                               (fips s1) (IsDebugEnabled (logger s)))]> stscache,
             log ++ [call_createStsSession (session s1) role (stsRegion s1)
                       (fips s1) (IsDebugEnabled (logger s))]))
         (stscache s1, log0) in
     let '(clients, log) :=
       rangeMap (clients s1)
         (λ role regions '(clients, log),
            let '(regions, log) :=
              rangeMap regions
                (λ region e '(regions, log),
                   let '(e, calls) := refreshClients s1 role region e in
                   (<[region := e]> regions, log ++ calls))
                (regions, log) in
            (<[role := regions]> clients, log))
         (clients s1, log) in
     (setPhase false true (setClients clients (setStscache stscache s1)), log))
    = (refreshedState s1, log0 ++ stsCalls s1 ++ clientCalls s1)).
  { intros s1 log0 Hdbg.
    rewrite (rangeMap_insert_log
               (λ role _, Some (refreshedSts s1 role))
               (λ role _, [call_createStsSession (session s1) role (stsRegion s1)
                             (fips s1) (IsDebugEnabled (logger s1))])).
    2: { intros k v acc log. unfold refreshedSts. by rewrite Hdbg. }
    rewrite (rangeMap_insert_log (refreshedRegions s1) (regionCalls s1)).
    2: { intros role regions acc log.
         rewrite (rangeMap_insert_log
                    (λ region e, (refreshClients s1 role region e).1)
                    (λ region e, (refreshClients s1 role region e).2)); [done|].
         intros region e acc' log'. by destruct (refreshClients s1 role region e). }
    unfold refreshedState, stsCalls, clientCalls. by rewrite <-(assoc_L (++)). }
  unfold withSession, sessionCalls. destruct (session s) eqn:Hs.
  - by rewrite (Hloops s []).
  - by rewrite (Hloops _ [_]).
Qed.

(** ** Reading the state after [Clear] and [Refresh] *)

Lemma lookupEntry_fmap (f : clientCache → clientCache)
    (m : gmap Role (gmap string clientCache)) role region :
  lookupEntry ((λ regions : gmap string clientCache, f <$> regions) <$> m)
              role region
  = f <$> lookupEntry m role region.
Proof.
  unfold lookupEntry. rewrite lookup_fmap.
  destruct (m !! role) as [regions|]; simpl; [|done].
  by rewrite lookup_fmap.
Qed.

Lemma entry_Clear s role region :
  cleared s = false →
  entry (Clear s) role region = clearClients <$> entry s role region.
Proof.
  intros Hc. rewrite Clear_not_cleared by done.
  unfold entry; simpl. apply lookupEntry_fmap.
Qed.

Lemma stscache_Clear s role :
  cleared s = false →
  stscache (Clear s) !! role = (λ _, None) <$> stscache s !! role.
Proof.
  intros Hc. rewrite Clear_not_cleared by done. simpl.
  unfold clearedStscache. by rewrite lookup_fmap.
Qed.

Lemma entry_refreshedState s role region :
  entry (refreshedState s) role region
  = (λ e, (refreshClients s role region e).1) <$> entry s role region.
Proof.
  unfold entry, lookupEntry, refreshedState; simpl.
  rewrite map_lookup_imap.
  destruct (clients s !! role) as [regions|]; simpl; [|done].
  unfold refreshedRegions. rewrite map_lookup_imap.
  by destruct (regions !! region).
Qed.

Lemma stscache_refreshedState s role :
  stscache (refreshedState s) !! role
  = (λ _, Some (refreshedSts s role)) <$> stscache s !! role.
Proof.
  unfold refreshedState; simpl. rewrite map_lookup_imap.
  by destruct (stscache s !! role).
Qed.

Lemma withSession_entry s role region :
  entry (withSession s) role region = entry s role region.
Proof. unfold withSession. by destruct (session s). Qed.

Lemma withSession_stscache s : stscache (withSession s) = stscache s.
Proof. unfold withSession. by destruct (session s). Qed.

Lemma withSession_config s :
  fips (withSession s) = fips s ∧ logger (withSession s) = logger s
  ∧ stsRegion (withSession s) = stsRegion s
  ∧ endpointResolver (withSession s) = endpointResolver s
  ∧ cleared (withSession s) = cleared s
  ∧ refreshed (withSession s) = refreshed s.
Proof. unfold withSession. by destruct (session s). Qed.

Lemma withSession_session s :
  session (withSession s)
  = Some (default (createAWSSession (endpointResolver s)
                                    (IsDebugEnabled (logger s)))
                  (session s)).
Proof. unfold withSession. by destruct (session s) eqn:Hs; simpl; rewrite ?Hs. Qed.

(** A [Refresh] that runs fills every identity slot and every metrics slot,
    and the five other slots of every entry that is not static-only. *)
Lemma Refresh_populates s :
  refreshed s = false →
  (∀ role, role ∈ dom (stscache s) →
     ∃ c, stscache (Refresh s).1 !! role = Some (Some c) ∧ clService c = STS)
  ∧ (∀ role region e, entry s role region = Some e →
       ∃ e', entry (Refresh s).1 role region = Some e'
             ∧ is_Some (cloudwatch e')
             ∧ (onlyStatic e = false →
                is_Some (tagging e') ∧ is_Some (asg e') ∧ is_Some (ec2 e')
                ∧ is_Some (dms e') ∧ is_Some (apiGateway e'))).
Proof.
  intros Hr. rewrite Refresh_not_refreshed by done. cbn [fst]. split.
  - intros role [v Hv]%elem_of_dom.
    rewrite stscache_refreshedState, withSession_stscache, Hv. simpl. eauto.
  - intros role region e He.
    rewrite entry_refreshedState, withSession_entry, He. simpl.
    eexists. split; [done|]. unfold refreshClients.
    change (onlyStatic (setCloudwatch _ e)) with (onlyStatic e).
    destruct (onlyStatic e); simpl; (split; [eauto|]); [done|].
    intros _. split_and!; eauto.
Qed.

(** The fields [Refresh] and [Clear] leave alone. *)
Lemma Refresh_config s :
  let s' := (Refresh s).1 in
  fips s' = fips s ∧ logger s' = logger s ∧ stsRegion s' = stsRegion s
  ∧ endpointResolver s' = endpointResolver s.
Proof.
  destruct (refreshed s) eqn:Hr.
  - by rewrite Refresh_refreshed.
  - rewrite Refresh_not_refreshed by done. simpl.
    by destruct (withSession_config s) as (-> & -> & -> & -> & _).
Qed.

Lemma Clear_config s :
  let s' := Clear s in
  fips s' = fips s ∧ logger s' = logger s ∧ stsRegion s' = stsRegion s
  ∧ endpointResolver s' = endpointResolver s ∧ session s' = session s.
Proof.
  destruct (cleared s) eqn:Hc.
  - by rewrite Clear_cleared.
  - by rewrite Clear_not_cleared.
Qed.

Lemma Refresh_phase s :
  refreshed (Refresh s).1 = true
  ∧ cleared (Refresh s).1 = (if refreshed s then cleared s else false).
Proof.
  destruct (refreshed s) eqn:Hr.
  - by rewrite Refresh_refreshed.
  - by rewrite Refresh_not_refreshed.
Qed.

Lemma Clear_phase s :
  cleared (Clear s) = true
  ∧ refreshed (Clear s) = (if cleared s then refreshed s else false).
Proof.
  destruct (cleared s) eqn:Hc.
  - by rewrite Clear_cleared.
  - by rewrite Clear_not_cleared.
Qed.

(** ** The accessors, uniformly *)


Lemma accessor_regional k region role s :
  k ≠ STS →
  accessor k (Some region) role s
  = match entry s role region with
    | Some e =>
        match slot k e with
        | Some cached => Returned cached s []
        | None =>
            Returned (lazyClient k s region role)
              (setClients
                 (storeEntry role region
                    (setSlot k (Some (lazyClient k s region role)) e)
                    (clients s)) s)
              [lazyCall k s region role]
        end
    | None => Panicked [lazyCall k s region role]
    end.
Proof. by destruct k. Qed.

Lemma accessor_nil_region k role s :
  k ≠ STS → accessor k None role s = Panicked [].
Proof. by destruct k. Qed.

Lemma accessor_STS region role s :
  accessor STS region role s
  = match stscache s !! role with
    | Some (Some cached) => Returned cached s []
    | _ =>
        Returned (lazyClient STS s "" role)
          (setStscache (<[role := Some (lazyClient STS s "" role)]> (stscache s))
                       s)
          [lazyCall STS s "" role]
    end.
Proof. done. Qed.

Lemma lookupEntry_storeEntry m role region e r rg :
  is_Some (m !! role) →
  lookupEntry (storeEntry role region e m) r rg
  = if decide (r = role ∧ rg = region) then Some e else lookupEntry m r rg.
Proof.
  intros [regions Hm]. unfold lookupEntry, storeEntry.
  destruct (decide (r = role ∧ rg = region)) as [[-> ->]|Hne].
  - rewrite lookup_alter_eq, Hm. simpl. by rewrite lookup_insert_eq.
  - destruct (decide (r = role)) as [->|Hr].
    + rewrite lookup_alter_eq, Hm. simpl.
      apply lookup_insert_ne. intros ->. by apply Hne.
    + by rewrite lookup_alter_ne.
Qed.


Lemma dom_storeEntry m role region e :
  dom (storeEntry role region e m) = dom m.
Proof. unfold storeEntry. apply dom_alter_L. Qed.

(** ** Sequences of calls *)

Lemma step_inv o s a s' log :
  step o s = Returned a s' log →
  (o = OpRefresh ∧ s' = (Refresh s).1 ∧ log = (Refresh s).2)
  ∨ (o = OpClear ∧ s' = Clear s ∧ log = [])
  ∨ (∃ k region role c, o = OpGet k region role
       ∧ accessor k region role s = Returned c s' log).
Proof.
  destruct o as [| |k region role]; simpl.
  - destruct (Refresh s) as [s1 log1]. intros [= <- <- <-]. by left.
  - intros [= <- <- <-]. right; by left.
  - destruct (accessor k region role s) as [c s1 log1|] eqn:Hacc; [|done].
    intros [= <- <- <-]. right; right. by exists k, region, role, c.
Qed.

Lemma exec_invariant_on (Q : op → Prop) (P : sessionCache → Prop) :
  (∀ o s a s' log, Q o → P s → step o s = Returned a s' log → P s') →
  ∀ ops s s', Forall Q ops → P s → reaches s ops s' → P s'.
Proof.
  intros Hstep ops. unfold reaches.
  induction ops as [|o ops IH]; intros s s' HQ HP; simpl.
  - by intros [= <-].
  - apply Forall_cons in HQ as [HQo HQ].
    destruct (step o s) as [a s1 log1|] eqn:Hs; [|done].
    destruct (exec ops s1) as [[] s2 log2|] eqn:He; [|done].
    simpl. intros [= <-]. apply (IH s1); [done|by eapply Hstep|by rewrite He].
Qed.

Lemma exec_invariant (P : sessionCache → Prop) :
  (∀ o s a s' log, P s → step o s = Returned a s' log → P s') →
  ∀ ops s s', P s → reaches s ops s' → P s'.
Proof.
  intros Hstep ops s s' HP.
  apply (exec_invariant_on (λ _, True) P); [eauto| |done].
  by apply Forall_true.
Qed.

(** An accessor only ever writes one slot: the session handle, the
    configuration and the phase flags are as before. *)
Lemma accessor_frame k region role s c s' log :
  accessor k region role s = Returned c s' log →
  session s' = session s ∧ fips s' = fips s ∧ logger s' = logger s
  ∧ stsRegion s' = stsRegion s ∧ endpointResolver s' = endpointResolver s
  ∧ cleared s' = cleared s ∧ refreshed s' = refreshed s.
Proof.
  destruct (decide (k = STS)) as [->|Hk].
  - rewrite accessor_STS.
    destruct (stscache s !! role) as [[cached|]|]; by intros [= <- <- <-].
  - destruct region as [region|]; [|by rewrite accessor_nil_region].
    rewrite accessor_regional by done.
    destruct (entry s role region) as [e|]; [|done].
    destruct (slot k e); by intros [= <- <- <-].
Qed.

Lemma reaches_stateAfter ops s :
  returns (exec ops s) = true → reaches s ops (stateAfter ops s).
Proof.
  unfold reaches, stateAfter. by destruct (exec ops s).
Qed.

(** ** Phase flags *)

Lemma step_stays_refreshed o s a s' log :
  o ≠ OpClear → refreshed s = true → step o s = Returned a s' log →
  refreshed s' = true.
Proof.
  intros Ho Hr Hstep.
  apply step_inv in Hstep
    as [(_ & -> & _)|[(-> & _)|(k & region & role & c & _ & Hacc)]].
  - apply Refresh_phase.
  - done.
  - by apply accessor_frame in Hacc as (_ & _ & _ & _ & _ & _ & ->).
Qed.

(** C6. [Refresh] on a cache whose [refreshed] flag is set makes no builder
    call and returns the state it was given.  So the second of two
    consecutive [Refresh] calls, from any state, makes no builder call and
    changes nothing; the same holds when calls other than [Clear] come in
    between. *)
Theorem Refresh_refreshed_noop s :
  (refreshed s = true → Refresh s = (s, []))
  ∧ Refresh (Refresh s).1 = ((Refresh s).1, [])
  ∧ (∀ ops s', Forall (λ o, o ≠ OpClear) ops →
       reaches (Refresh s).1 ops s' → Refresh s' = (s', [])).
Proof.
  split; [apply Refresh_refreshed|].
  split; [apply Refresh_refreshed, Refresh_phase|].
  intros ops s' Hops Hreach. apply Refresh_refreshed.
  apply (exec_invariant_on (λ o, o ≠ OpClear) (λ s, refreshed s = true)
           step_stays_refreshed ops (Refresh s).1 s'); [done| |done].
  apply Refresh_phase.
Qed.

Lemma Refresh_refreshed_noop_holds :
  refreshed (Refresh scenarioCache).1 = true
  ∧ Refresh (Refresh scenarioCache).1 = ((Refresh scenarioCache).1, []).
Proof.
  split; [vm_compute; reflexivity|].
  apply (proj1 (Refresh_refreshed_noop (Refresh scenarioCache).1)).
  vm_compute; reflexivity.
Defined.

Lemma step_phase o s a s' log :
  cleared s && refreshed s = false →
  step o s = Returned a s' log →
  cleared s' && refreshed s' = false.
Proof.
  intros Hp Hstep.
  apply step_inv in Hstep
    as [(_ & -> & _)|[(_ & -> & _)|(k & region & role & c & _ & Hacc)]].
  - destruct (Refresh_phase s) as [-> ->]. by destruct (refreshed s).
  - destruct (Clear_phase s) as [-> ->]. by destruct (cleared s).
  - apply accessor_frame in Hacc as (_ & _ & _ & _ & _ & -> & ->). done.
Qed.

(** C8. The constructor leaves both phase flags false.  In every state
    reachable from it by [Refresh], [Clear] and accessor calls the flags are
    never both true; there, [Refresh] ends with [refreshed] true and [cleared]
    false, and [Clear] ends with [cleared] true and [refreshed] false. *)
Theorem phase_flags_exclusive env config fps lg :
  let s0 := NewSessionCache env config fps lg in
  (cleared s0 = false ∧ refreshed s0 = false)
  ∧ ∀ ops s, reaches s0 ops s →
      cleared s && refreshed s = false
      ∧ (refreshed (Refresh s).1 = true ∧ cleared (Refresh s).1 = false)
      ∧ (cleared (Clear s) = true ∧ refreshed (Clear s) = false).
Proof.
  intros s0. split; [done|]. intros ops s Hreach.
  assert (Hp : cleared s && refreshed s = false).
  { apply (exec_invariant (λ s, cleared s && refreshed s = false)
             step_phase ops s0 s); done. }
  split; [done|].
  destruct (Refresh_phase s) as [-> ->], (Clear_phase s) as [-> ->].
  destruct (cleared s), (refreshed s); done.
Qed.

Lemma phase_flags_exclusive_holds :
  reaches scenarioCache phaseOps (stateAfter phaseOps scenarioCache)
  ∧ cleared (stateAfter phaseOps scenarioCache)
    && refreshed (stateAfter phaseOps scenarioCache) = false.
Proof.
  assert (H : reaches scenarioCache phaseOps (stateAfter phaseOps scenarioCache))
    by (apply reaches_stateAfter; vm_compute; reflexivity).
  split; [exact H|].
  exact (proj1 (proj2 (phase_flags_exclusive "" scenario true
                         {| IsDebugEnabled := false |}) phaseOps _ H)).
Defined.

(** ** What the builders put in a client *)

Ltac builder_fields :=
  unfold createStsSession, createCloudwatchSession, createTagSession,
    createASGSession, createEC2Session, createDMSSession,
    createAPIGatewaySession, setSTSCreds, debugLog, assumeRole, debugLevel;
  repeat match goal with
         | |- context [decide ?P] => destruct (decide P)
         | b : bool |- _ => destruct b
         end;
  simpl; try done.


Lemma builders_logLevel sess region role fps dbg :
  LogLevel (clConfig (createStsSession sess role region fps dbg))
    = debugLevel dbg
  ∧ LogLevel (clConfig (createCloudwatchSession sess region role fps dbg))
    = debugLevel dbg
  ∧ LogLevel (clConfig (createTagSession sess region role dbg))
    = debugLevel dbg
  ∧ LogLevel (clConfig (createASGSession sess region role dbg))
    = debugLevel dbg
  ∧ LogLevel (clConfig (createEC2Session sess region role fps dbg))
    = debugLevel dbg
  ∧ LogLevel (clConfig (createDMSSession sess region role fps dbg))
    = debugLevel dbg
  ∧ LogLevel (clConfig (createAPIGatewaySession sess region role fps dbg))
    = debugLevel dbg.
Proof. repeat split; builder_fields. Qed.

Lemma builders_endpoint sess region role fps dbg :
  Endpoint (clConfig (createStsSession sess role region fps dbg))
    = (if fps then Some ("https://sts-fips." ++ region ++ ".amazonaws.com")%string
       else None)
  ∧ Endpoint (clConfig (createCloudwatchSession sess region role fps dbg))
    = (if fps
       then Some ("https://monitoring-fips." ++ region ++ ".amazonaws.com")%string
       else None)
  ∧ Endpoint (clConfig (createEC2Session sess region role fps dbg))
    = (if fps then Some ("https://ec2-fips." ++ region ++ ".amazonaws.com")%string
       else None)
  ∧ Endpoint (clConfig (createDMSSession sess region role fps dbg))
    = (if fps then Some ("https://dms-fips." ++ region ++ ".amazonaws.com")%string
       else None)
  ∧ Endpoint (clConfig (createAPIGatewaySession sess region role fps dbg))
    = (if fps
       then Some ("https://apigateway-fips." ++ region ++ ".amazonaws.com")%string
       else None).
Proof. repeat split; builder_fields. Qed.

Lemma builders_no_endpoint sess region role dbg :
  Endpoint (clConfig (createTagSession sess region role dbg)) = None
  ∧ Endpoint (clConfig (createASGSession sess region role dbg)) = None.
Proof. split; builder_fields. Qed.

(** C10. Whatever the region, the role, the session handle and the debug
    flag, the clients [createTagSession] and [createASGSession] return carry
    no endpoint override; this holds for the tagging and autoscaling clients
    the cache builds in [Refresh] and in the accessors whatever its [fips]
    flag.  The identity, metrics, compute, migration and gateway builders,
    given [fips = true], set the endpoint to their FIPS URL with the region
    substituted. *)
Theorem tagging_asg_never_fips sess region role dbg :
  Endpoint (clConfig (createTagSession sess region role dbg)) = None
  ∧ Endpoint (clConfig (createASGSession sess region role dbg)) = None
  ∧ (∀ s,
       Endpoint (clConfig (lazyClient Tagging s region role)) = None
       ∧ Endpoint (clConfig (lazyClient AutoScaling s region role)) = None
       ∧ (Endpoint ∘ clConfig)
           <$> tagging (refreshClients s role region (newClientCache false)).1
         = Some None
       ∧ (Endpoint ∘ clConfig)
           <$> asg (refreshClients s role region (newClientCache false)).1
         = Some None)
  ∧ Endpoint (clConfig (createStsSession sess role region true dbg))
    = Some ("https://sts-fips." ++ region ++ ".amazonaws.com")%string
  ∧ Endpoint (clConfig (createCloudwatchSession sess region role true dbg))
    = Some ("https://monitoring-fips." ++ region ++ ".amazonaws.com")%string
  ∧ Endpoint (clConfig (createEC2Session sess region role true dbg))
    = Some ("https://ec2-fips." ++ region ++ ".amazonaws.com")%string
  ∧ Endpoint (clConfig (createDMSSession sess region role true dbg))
    = Some ("https://dms-fips." ++ region ++ ".amazonaws.com")%string
  ∧ Endpoint (clConfig (createAPIGatewaySession sess region role true dbg))
    = Some ("https://apigateway-fips." ++ region ++ ".amazonaws.com")%string.
Proof.
  assert (Htag : ∀ sess' dbg',
    Endpoint (clConfig (createTagSession sess' region role dbg')) = None)
    by (intros; apply builders_no_endpoint).
  assert (Hasg : ∀ sess' dbg',
    Endpoint (clConfig (createASGSession sess' region role dbg')) = None)
    by (intros; apply builders_no_endpoint).
  split; [apply Htag|]. split; [apply Hasg|]. split.
  - intros s. split; [apply Htag|]. split; [apply Hasg|].
    cbn -[createTagSession createASGSession]. by rewrite Htag, Hasg.
  - apply (builders_endpoint sess region role true dbg).
Qed.

(** ** The key space *)


Lemma sameKeys_trans s1 s2 s3 :
  sameKeys s1 s2 → sameKeys s2 s3 → sameKeys s1 s3.
Proof.
  intros (H1 & H2 & H3) (H1' & H2' & H3').
  split; [congruence|]. split; [congruence|].
  intros role. by rewrite H3', H3.
Qed.

Lemma sameKeys_Clear s : sameKeys s (Clear s).
Proof.
  destruct (cleared s) eqn:Hc; [by rewrite Clear_cleared|].
  rewrite Clear_not_cleared by done.
  unfold sameKeys, regionKeys, clearedStscache, clearedClients; simpl.
  rewrite !dom_fmap_L. repeat split. intros role. rewrite lookup_fmap.
  destruct (clients s !! role); simpl; [apply dom_fmap_L|done].
Qed.

Lemma sameKeys_withSession s : sameKeys s (withSession s).
Proof. unfold withSession. by destruct (session s). Qed.

Lemma sameKeys_refreshedState s : sameKeys s (refreshedState s).
Proof.
  unfold sameKeys, regionKeys, refreshedState; simpl.
  rewrite (map_imap_const_dom (λ role _, Some (refreshedSts s role))).
  rewrite (map_imap_const_dom (refreshedRegions s)).
  repeat split. intros role. rewrite map_lookup_imap.
  destruct (clients s !! role) as [regions|]; simpl; [|done].
  unfold refreshedRegions.
  apply (map_imap_const_dom (λ region e, (refreshClients s role region e).1)).
Qed.

Lemma sameKeys_Refresh s : sameKeys s (Refresh s).1.
Proof.
  destruct (refreshed s) eqn:Hr; [by rewrite Refresh_refreshed|].
  rewrite Refresh_not_refreshed by done. simpl.
  eapply sameKeys_trans; [apply sameKeys_withSession|].
  apply sameKeys_refreshedState.
Qed.



(** ** Accessors on declared keys *)







(** ** Clear *)

(** After [Refresh], [Clear] and a lazy [GetCloudwatch], the [cleared] flag
    is still set, so a further [Clear] returns at once and the metrics slot
    the accessor filled stays filled. *)
Lemma Clear_after_lazy_Get_keeps_slot :
  reaches scenarioCache staleClearOps (stateAfter staleClearOps scenarioCache)
  ∧ cleared (stateAfter staleClearOps scenarioCache) = true
  ∧ Clear (stateAfter staleClearOps scenarioCache)
    = stateAfter staleClearOps scenarioCache
  ∧ cloudwatch
      <$> entry (Clear (stateAfter staleClearOps scenarioCache))
                roleNone "eu-west-1"
    = Some (Some (createCloudwatchSession
                    (Some (createAWSSession DefaultResolverEndpointFor false))
                    "eu-west-1" roleNone true false))
  ∧ ¬ Clear_always_empties scenarioCache.
Proof.
  assert (Hreach : reaches scenarioCache staleClearOps
                     (stateAfter staleClearOps scenarioCache))
    by (apply reaches_stateAfter; vm_compute; reflexivity).
  assert (Hc : cleared (stateAfter staleClearOps scenarioCache) = true)
    by (vm_compute; reflexivity).
  assert (Hcw : cloudwatch
                  <$> entry (Clear (stateAfter staleClearOps scenarioCache))
                            roleNone "eu-west-1"
                = Some (Some (createCloudwatchSession
                                (Some (createAWSSession
                                         DefaultResolverEndpointFor false))
                                "eu-west-1" roleNone true false)))
    by (vm_compute; reflexivity).
  split_and!; [done|done|by apply Clear_cleared|done|].
  intros Hclaim.
  destruct (entry (Clear (stateAfter staleClearOps scenarioCache))
                  roleNone "eu-west-1") as [e|] eqn:He; [|done].
  destruct (Hclaim _ _ Hreach _ _ _ He) as [Hnone _].
  simpl in Hcw. by rewrite Hnone in Hcw.
Qed.

Lemma slotsEmpty_clearClients e : slotsEmpty (clearClients e).
Proof. by repeat split. Qed.

(** C7 (amended). [Clear] is idempotent, and a [Clear] that finds the
    [cleared] flag set changes nothing.  A [Clear] that finds the flag unset
    empties every identity slot and every slot of every entry, keeps every
    key and every static-only mark, and ends with [cleared] true and
    [refreshed] false. *)
Theorem Clear_idempotent_empties s :
  Clear (Clear s) = Clear s
  ∧ (cleared s = true → Clear s = s)
  ∧ (cleared s = false →
       (∀ role, stscache (Clear s) !! role = (λ _, None) <$> stscache s !! role)
       ∧ (∀ role region,
            entry (Clear s) role region = clearClients <$> entry s role region)
       ∧ (∀ role region e, entry (Clear s) role region = Some e →
            slotsEmpty e
            ∧ ∃ e0, entry s role region = Some e0
                    ∧ onlyStatic e = onlyStatic e0)
       ∧ sameKeys s (Clear s)
       ∧ cleared (Clear s) = true
       ∧ refreshed (Clear s) = false).
Proof.
  split; [apply Clear_cleared, Clear_phase|].
  split; [apply Clear_cleared|].
  intros Hc. split_and!.
  - intros role. by apply stscache_Clear.
  - intros role region. by apply entry_Clear.
  - intros role region e. rewrite entry_Clear by done.
    destruct (entry s role region) as [e0|]; [|done].
    intros [= <-]. split; [apply slotsEmpty_clearClients|by exists e0].
  - apply sameKeys_Clear.
  - apply Clear_phase.
  - destruct (Clear_phase s) as [_ ->]. by rewrite Hc.
Qed.

Lemma Clear_idempotent_empties_holds :
  cleared (stateAfter [OpRefresh] scenarioCache) = false
  ∧ ∀ role region,
      entry (Clear (stateAfter [OpRefresh] scenarioCache)) role region
      = clearClients <$> entry (stateAfter [OpRefresh] scenarioCache) role region.
Proof.
  assert (Hc : cleared (stateAfter [OpRefresh] scenarioCache) = false)
    by (vm_compute; reflexivity).
  split; [exact Hc|].
  exact (proj1 (proj2 (proj2 (proj2 (Clear_idempotent_empties
                                       (stateAfter [OpRefresh] scenarioCache)))
                         Hc))).
Defined.

(** ** Closure of the key space *)




(** ** The builder calls of [Refresh] and of the accessors *)

Lemma refreshClients_calls (P : call → Prop) s role region e :
  let sess := session s in
  let dbg := IsDebugEnabled (logger s) in
  P (call_createCloudwatchSession sess region role (fips s) dbg) →
  P (call_createTagSession sess region role dbg) →
  P (call_createASGSession sess region role dbg) →
  P (call_createEC2Session sess region role (fips s) dbg) →
  P (call_createDMSSession sess region role (fips s) dbg) →
  P (call_createAPIGatewaySession sess region role (fips s) dbg) →
  Forall P (refreshClients s role region e).2.
Proof.
  intros sess dbg Hcw Htag Hasg Hec2 Hdms Hapi. unfold refreshClients.
  change (onlyStatic (setCloudwatch _ e)) with (onlyStatic e).
  destruct (onlyStatic e); simpl; repeat constructor; done.
Qed.



(** ** One session handle *)





Lemma Refresh_session s :
  session (Refresh s).1
  = if refreshed s then session s
    else Some (default (createAWSSession (endpointResolver s)
                                         (IsDebugEnabled (logger s)))
                       (session s)).
Proof.
  destruct (refreshed s) eqn:Hr; [by rewrite Refresh_refreshed|].
  rewrite Refresh_not_refreshed by done. simpl. apply withSession_session.
Qed.











(** ** The ambient flags *)



(** [GetTagging] and [GetASG] pass the cache's [fips] flag where
    [createTagSession] and [createASGSession] expect the debug setting: on a
    miss, the client has debug logging on exactly when [fips] is set,
    whatever the logger says. *)
Lemma lazy_tagging_asg_debug_is_fips s region role :
  lazyCall Tagging s region role
  = call_createTagSession (session s) region role (fips s)
  ∧ lazyCall AutoScaling s region role
    = call_createASGSession (session s) region role (fips s)
  ∧ LogLevel (clConfig (lazyClient Tagging s region role))
    = debugLevel (fips s)
  ∧ LogLevel (clConfig (lazyClient AutoScaling s region role))
    = debugLevel (fips s).
Proof.
  split_and!; try done;
    apply (builders_logLevel (session s) region role false (fips s)).
Qed.





(** ** The key space the constructor builds *)

Lemma ensureRole_split role st :
  ensureRole role st = (ensureSts st.1 role, ensureClients role st.2).
Proof. by destruct st. Qed.

Lemma addDiscoveryJob_split st job :
  addDiscoveryJob st job
  = (foldl ensureSts st.1 (JobRoles job),
     putJob false (JobRoles job) (JobRegions job) st.2).
Proof.
  unfold addDiscoveryJob, putJob. revert st.
  induction (JobRoles job) as [|role roles IH]; intros st; simpl.
  - by destruct st.
  - rewrite ensureRole_split. by rewrite IH.
Qed.

Lemma addStaticJob_split st job :
  addStaticJob st job
  = (foldl ensureSts st.1 (StaticRoles job),
     putJob true (StaticRoles job) (StaticRegions job) st.2).
Proof.
  unfold addStaticJob, putJob. revert st.
  induction (StaticRoles job) as [|role roles IH]; intros st; simpl.
  - by destruct st.
  - rewrite ensureRole_split. by rewrite IH.
Qed.

Lemma foldl_addDiscoveryJob st jobs :
  foldl addDiscoveryJob st jobs
  = (foldl ensureSts st.1 (jobs ≫= JobRoles),
     foldl (λ rc job, putJob false (JobRoles job) (JobRegions job) rc)
           st.2 jobs).
Proof.
  revert st. induction jobs as [|job jobs IH]; intros st; simpl.
  - by destruct st.
  - rewrite IH, addDiscoveryJob_split. simpl. by rewrite foldl_app.
Qed.

Lemma foldl_addStaticJob st jobs :
  foldl addStaticJob st jobs
  = (foldl ensureSts st.1 (jobs ≫= StaticRoles),
     foldl (λ rc job, putJob true (StaticRoles job) (StaticRegions job) rc)
           st.2 jobs).
Proof.
  revert st. induction jobs as [|job jobs IH]; intros st; simpl.
  - by destruct st.
  - rewrite IH, addStaticJob_split. simpl. by rewrite foldl_app.
Qed.

Lemma NewSessionCache_stscache env config fps lg :
  stscache (NewSessionCache env config fps lg)
  = foldl ensureSts ∅ (allRoles config).
Proof.
  unfold NewSessionCache; simpl.
  rewrite foldl_addStaticJob, foldl_addDiscoveryJob. simpl.
  unfold allRoles, discoveryRoles, staticRoles. by rewrite foldl_app.
Qed.

Lemma NewSessionCache_clients env config fps lg :
  clients (NewSessionCache env config fps lg)
  = foldl (λ rc job, putJob true (StaticRoles job) (StaticRegions job) rc)
      (foldl (λ rc job, putJob false (JobRoles job) (JobRegions job) rc)
             ∅ (Jobs (Discovery config)))
      (StaticJobs config).
Proof.
  unfold NewSessionCache; simpl.
  by rewrite foldl_addStaticJob, foldl_addDiscoveryJob.
Qed.

Lemma ensureSts_lookup sts role r :
  ensureSts sts role !! r
  = if decide (r = role) then Some (default None (sts !! r)) else sts !! r.
Proof.
  unfold ensureSts. destruct (decide (r = role)) as [->|Hne].
  - destruct (decide (is_Some (sts !! role))) as [[v Hv]|Hnone].
    + by rewrite Hv.
    + rewrite lookup_insert_eq.
      apply eq_None_not_Some in Hnone. by rewrite Hnone.
  - destruct (decide (is_Some (sts !! role))); [done|].
    by rewrite lookup_insert_ne.
Qed.

Lemma foldl_ensureSts roles sts r :
  foldl ensureSts sts roles !! r
  = if decide (r ∈ roles) then Some (default None (sts !! r)) else sts !! r.
Proof.
  revert sts. induction roles as [|role roles IH]; intros sts.
  - rewrite decide_False; [done|apply not_elem_of_nil].
  - change (foldl ensureSts sts (role :: roles))
      with (foldl ensureSts (ensureSts sts role) roles).
    rewrite IH, ensureSts_lookup.
    destruct (decide (r = role)) as [->|Hne].
    + rewrite (decide_True (P := role ∈ role :: roles)) by apply list_elem_of_here.
      by destruct (decide (role ∈ roles)).
    + destruct (decide (r ∈ roles)) as [Hin|Hnin].
      * by rewrite decide_True by (by apply list_elem_of_further).
      * rewrite decide_False; [done|]. by intros [?|?]%elem_of_cons.
Qed.

Lemma reached_idemp static old :
  reached static (reached static old) = reached static old.
Proof. by destruct static. Qed.

(** A loop whose every step maps the entries it selects through [reached]
    maps exactly the entries some step selects. *)
Lemma foldl_reached {X} (Inv : gmap Role (gmap string clientCache) → Prop)
    (step : gmap Role (gmap string clientCache) → X
            → gmap Role (gmap string clientCache))
    (static : bool) (sel : X → Role → string → Prop)
    `{∀ x r rg, Decision (sel x r rg)} (xs : list X) :
  (∀ rc x, Inv rc → Inv (step rc x)) →
  (∀ rc x r rg, Inv rc →
     lookupEntry (step rc x) r rg
     = if decide (sel x r rg) then reached static (lookupEntry rc r rg)
       else lookupEntry rc r rg) →
  ∀ rc r rg, Inv rc →
    lookupEntry (foldl step rc xs) r rg
    = if decide (Exists (λ x, sel x r rg) xs)
      then reached static (lookupEntry rc r rg)
      else lookupEntry rc r rg.
Proof.
  intros Hinv Hstep. induction xs as [|x xs IH]; intros rc r rg HI.
  - rewrite decide_False; [done|]. by intros ?%Exists_nil.
  - change (foldl step rc (x :: xs)) with (foldl step (step rc x) xs).
    rewrite IH by auto. rewrite Hstep by done.
    destruct (decide (sel x r rg)) as [Hx|Hx],
             (decide (Exists (λ x, sel x r rg) xs)) as [Hxs|Hxs].
    + rewrite decide_True by (by apply Exists_cons; left).
      apply reached_idemp.
    + by rewrite decide_True by (by apply Exists_cons; left).
    + by rewrite decide_True by (by apply Exists_cons; right).
    + rewrite decide_False; [done|]. by intros [?|?]%Exists_cons.
Qed.

Lemma ensureClients_lookup role rc :
  is_Some (ensureClients role rc !! role).
Proof.
  unfold ensureClients. destruct (decide (is_Some (rc !! role))); [done|].
  rewrite lookup_insert_eq. eauto.
Qed.

Lemma ensureClients_entry role rc r rg :
  lookupEntry (ensureClients role rc) r rg = lookupEntry rc r rg.
Proof.
  unfold ensureClients.
  destruct (decide (is_Some (rc !! role))) as [|Hnone]; [done|].
  apply eq_None_not_Some in Hnone. unfold lookupEntry.
  destruct (decide (r = role)) as [->|Hne].
  - by rewrite lookup_insert_eq, Hnone.
  - by rewrite lookup_insert_ne.
Qed.

Lemma ensureClients_dom role rc :
  dom (ensureClients role rc) = {[role]} ∪ dom rc.
Proof.
  unfold ensureClients.
  destruct (decide (is_Some (rc !! role))) as [Hsome|Hnone].
  - apply elem_of_dom in Hsome.
    symmetry. by apply subseteq_union_1_L, singleton_subseteq_l.
  - apply dom_insert_L.
Qed.

Lemma putRegion_dom static role rc region :
  dom (putRegion static role rc region) = dom rc.
Proof.
  unfold putRegion. destruct static; [|apply dom_storeEntry].
  destruct (decide _); [done|apply dom_storeEntry].
Qed.

Lemma putRegion_entry static role rc region r rg :
  is_Some (rc !! role) →
  lookupEntry (putRegion static role rc region) r rg
  = if decide (r = role ∧ rg = region)
    then reached static (lookupEntry rc r rg)
    else lookupEntry rc r rg.
Proof.
  intros Hrole. unfold putRegion, reached. destruct static.
  - destruct (decide (is_Some (lookupEntry rc role region))) as [[e He]|Hnone].
    + destruct (decide (r = role ∧ rg = region)) as [[-> ->]|]; [|done].
      by rewrite He.
    + rewrite lookupEntry_storeEntry by done.
      destruct (decide (r = role ∧ rg = region)) as [[-> ->]|]; [|done].
      apply eq_None_not_Some in Hnone. by rewrite Hnone.
  - by rewrite lookupEntry_storeEntry.
Qed.

Lemma foldl_putRegion_dom static role regions rc :
  dom (foldl (putRegion static role) rc regions) = dom rc.
Proof.
  revert rc. induction regions as [|region regions IH]; intros rc; simpl;
    [done|]. by rewrite IH, putRegion_dom.
Qed.

Lemma putRole_dom static regions rc role :
  dom (putRole static regions rc role) = {[role]} ∪ dom rc.
Proof. unfold putRole. by rewrite foldl_putRegion_dom, ensureClients_dom. Qed.

Lemma putRole_entry static regions rc role r rg :
  lookupEntry (putRole static regions rc role) r rg
  = if decide (r = role ∧ rg ∈ regions)
    then reached static (lookupEntry rc r rg)
    else lookupEntry rc r rg.
Proof.
  unfold putRole.
  rewrite (foldl_reached (λ rc, is_Some (rc !! role)) (putRegion static role)
             static (λ region r rg, r = role ∧ rg = region)).
  - rewrite ensureClients_entry. apply decide_ext.
    rewrite Exists_exists. split.
    + intros (region & Hin & -> & ->). done.
    + intros [-> Hin]. by exists rg.
  - intros rc' region Hrole. apply elem_of_dom.
    rewrite putRegion_dom. by apply elem_of_dom.
  - intros rc' region r' rg' Hrole. by apply putRegion_entry.
  - apply ensureClients_lookup.
Qed.

Lemma putJob_dom static roles regions rc :
  dom (putJob static roles regions rc) = list_to_set roles ∪ dom rc.
Proof.
  unfold putJob. revert rc.
  induction roles as [|role roles IH]; intros rc; simpl.
  - by rewrite (left_id_L ∅ (∪)).
  - rewrite IH, putRole_dom.
    rewrite (assoc_L (∪)). f_equal. apply (comm_L (∪)).
Qed.

Lemma putJob_entry static roles regions rc r rg :
  lookupEntry (putJob static roles regions rc) r rg
  = if decide ((r, rg) ∈ jobPairs roles regions)
    then reached static (lookupEntry rc r rg)
    else lookupEntry rc r rg.
Proof.
  unfold putJob.
  rewrite (foldl_reached (λ _, True) (putRole static regions) static
             (λ role r rg, r = role ∧ rg ∈ regions)); try done.
  - apply decide_ext. unfold jobPairs.
    rewrite Exists_exists, list_elem_of_bind. split.
    + intros (role & Hin & -> & Hrg). exists role. split; [|done].
      apply list_elem_of_bind. exists rg. split; [|done]. by apply list_elem_of_singleton.
    + intros (role & Hp & Hin). exists role. split; [done|].
      apply list_elem_of_bind in Hp as (region & Hp & Hrg).
      apply list_elem_of_singleton in Hp. by injection Hp as -> ->.
  - intros rc' role r' rg' _. apply putRole_entry.
Qed.

Lemma elem_of_jobs_bind {J A} (f : J → list A) (jobs : list J) (x : A) :
  Exists (λ job, x ∈ f job) jobs ↔ x ∈ jobs ≫= f.
Proof.
  rewrite Exists_exists, list_elem_of_bind. split.
  - intros (job & Hin & Hx). by exists job.
  - intros (job & Hx & Hin). by exists job.
Qed.

Lemma discovery_jobs_entry jobs rc r rg :
  lookupEntry
    (foldl (λ rc job, putJob false (JobRoles job) (JobRegions job) rc) rc jobs)
    r rg
  = if decide ((r, rg) ∈ jobs ≫= λ job, jobPairs (JobRoles job) (JobRegions job))
    then reached false (lookupEntry rc r rg)
    else lookupEntry rc r rg.
Proof.
  rewrite (foldl_reached (λ _, True) _ false
             (λ job r rg, (r, rg) ∈ jobPairs (JobRoles job) (JobRegions job))
             (H := λ job r rg,
                decide ((r, rg) ∈ jobPairs (JobRoles job) (JobRegions job))));
    try done.
  - apply decide_ext, elem_of_jobs_bind.
  - intros rc' job r' rg' _. apply putJob_entry.
Qed.

Lemma static_jobs_entry jobs rc r rg :
  lookupEntry
    (foldl (λ rc job, putJob true (StaticRoles job) (StaticRegions job) rc)
           rc jobs)
    r rg
  = if decide ((r, rg)
               ∈ jobs ≫= λ job, jobPairs (StaticRoles job) (StaticRegions job))
    then reached true (lookupEntry rc r rg)
    else lookupEntry rc r rg.
Proof.
  rewrite (foldl_reached (λ _, True) _ true
             (λ job r rg,
                (r, rg) ∈ jobPairs (StaticRoles job) (StaticRegions job))
             (H := λ job r rg,
                decide ((r, rg)
                        ∈ jobPairs (StaticRoles job) (StaticRegions job))));
    try done.
  - apply decide_ext, elem_of_jobs_bind.
  - intros rc' job r' rg' _. apply putJob_entry.
Qed.

Lemma discovery_jobs_dom jobs rc :
  dom (foldl (λ rc job, putJob false (JobRoles job) (JobRegions job) rc) rc jobs)
  = list_to_set (jobs ≫= JobRoles) ∪ dom rc.
Proof.
  revert rc. induction jobs as [|job jobs IH]; intros rc; simpl.
  - by rewrite (left_id_L ∅ (∪)).
  - rewrite IH, putJob_dom, list_to_set_app_L.
    rewrite (assoc_L (∪)). f_equal. apply (comm_L (∪)).
Qed.

Lemma static_jobs_dom jobs rc :
  dom (foldl (λ rc job, putJob true (StaticRoles job) (StaticRegions job) rc)
             rc jobs)
  = list_to_set (jobs ≫= StaticRoles) ∪ dom rc.
Proof.
  revert rc. induction jobs as [|job jobs IH]; intros rc; simpl.
  - by rewrite (left_id_L ∅ (∪)).
  - rewrite IH, putJob_dom, list_to_set_app_L.
    rewrite (assoc_L (∪)). f_equal. apply (comm_L (∪)).
Qed.

(** The key space of a new cache, read off the job lists. *)
Lemma NewSessionCache_sts_lookup env config fps lg role :
  stscache (NewSessionCache env config fps lg) !! role
  = if decide (role ∈ allRoles config) then Some None else None.
Proof.
  rewrite NewSessionCache_stscache, foldl_ensureSts. by rewrite lookup_empty.
Qed.

Lemma NewSessionCache_clients_dom env config fps lg :
  dom (clients (NewSessionCache env config fps lg))
  = list_to_set (allRoles config).
Proof.
  rewrite NewSessionCache_clients, static_jobs_dom, discovery_jobs_dom.
  rewrite dom_empty_L, (right_id_L ∅ (∪)).
  unfold allRoles, discoveryRoles, staticRoles.
  rewrite list_to_set_app_L. apply (comm_L (∪)).
Qed.

Lemma NewSessionCache_entry env config fps lg role region :
  entry (NewSessionCache env config fps lg) role region
  = if decide ((role, region) ∈ discoveryPairs config)
    then Some (newClientCache false)
    else if decide ((role, region) ∈ staticPairs config)
         then Some (newClientCache true)
         else None.
Proof.
  unfold entry. rewrite NewSessionCache_clients.
  rewrite static_jobs_entry, discovery_jobs_entry.
  fold (discoveryPairs config). fold (staticPairs config).
  destruct (decide ((role, region) ∈ discoveryPairs config)),
           (decide ((role, region) ∈ staticPairs config)); done.
Qed.

Lemma nested_map_eq (m1 m2 : gmap Role (gmap string clientCache)) :
  dom m1 = dom m2 →
  (∀ r rg, lookupEntry m1 r rg = lookupEntry m2 r rg) →
  m1 = m2.
Proof.
  intros Hdom Hentry. apply map_eq; intros r.
  destruct (m1 !! r) as [i1|] eqn:H1, (m2 !! r) as [i2|] eqn:H2.
  - f_equal. apply map_eq; intros rg. specialize (Hentry r rg).
    unfold lookupEntry in Hentry. by rewrite H1, H2 in Hentry.
  - apply elem_of_dom_2 in H1. apply not_elem_of_dom in H2. congruence.
  - apply elem_of_dom_2 in H2. apply not_elem_of_dom in H1. congruence.
  - done.
Qed.

Lemma NewSessionCache_keys_ext env config config' fps lg :
  (∀ r, r ∈ allRoles config' ↔ r ∈ allRoles config) →
  (∀ p, p ∈ discoveryPairs config' ↔ p ∈ discoveryPairs config) →
  (∀ p, p ∈ staticPairs config' ↔ p ∈ staticPairs config) →
  stscache (NewSessionCache env config' fps lg)
  = stscache (NewSessionCache env config fps lg)
  ∧ clients (NewSessionCache env config' fps lg)
    = clients (NewSessionCache env config fps lg).
Proof.
  intros Hroles Hdisc Hstat. split.
  - apply map_eq; intros r. rewrite !NewSessionCache_sts_lookup.
    apply decide_ext, Hroles.
  - apply nested_map_eq.
    + rewrite !NewSessionCache_clients_dom. apply set_eq; intros r.
      rewrite !elem_of_list_to_set. apply Hroles.
    + intros r rg.
      pose proof (NewSessionCache_entry env config' fps lg r rg) as H'.
      pose proof (NewSessionCache_entry env config fps lg r rg) as H.
      unfold entry in H, H'. rewrite H, H'.
      rewrite (decide_ext _ _ _ _ (Hdisc (r, rg))).
      by rewrite (decide_ext _ _ _ _ (Hstat (r, rg))).
Qed.

(** ** Order independence of the key space *)

(** A job that names a role and no region reaches no pair, yet its role gets
    a key in the identity map. *)
Lemma role_without_region_gets_key :
  discoverySet roleWithoutRegion = discoverySet noJobs
  ∧ staticSet roleWithoutRegion = staticSet noJobs
  ∧ stscache (NewSessionCache "" roleWithoutRegion false
                {| IsDebugEnabled := false |}) !! roleX = Some None
  ∧ stscache (NewSessionCache "" noJobs false {| IsDebugEnabled := false |})
      !! roleX = None
  ∧ ¬ keys_fixed_by_pairs.
Proof.
  assert (Hin : stscache (NewSessionCache "" roleWithoutRegion false
                            {| IsDebugEnabled := false |}) !! roleX
                = Some None) by (vm_compute; reflexivity).
  assert (Hout : stscache (NewSessionCache "" noJobs false
                             {| IsDebugEnabled := false |}) !! roleX = None)
    by (vm_compute; reflexivity).
  split_and!; [done..|].
  intros Hclaim.
  destruct (Hclaim "" noJobs roleWithoutRegion false
              {| IsDebugEnabled := false |}) as [Hdom _]; [done..|].
  apply elem_of_dom_2 in Hin. rewrite Hdom in Hin.
  by apply not_elem_of_dom in Hout.
Qed.

Lemma list_to_set_eq_elem {A} `{Countable A} (l1 l2 : list A) :
  list_to_set l1 =@{gset A} list_to_set l2 → ∀ x, x ∈ l1 ↔ x ∈ l2.
Proof.
  intros Heq x. rewrite <-(elem_of_list_to_set (C := gset A) x l1), Heq.
  apply elem_of_list_to_set.
Qed.

Lemma decide_list_to_set {A B} `{Countable A} (x : A) (l : list A) (a b : B) :
  (if decide (x ∈ (list_to_set l : gset A)) then a else b)
  = (if decide (x ∈ l) then a else b).
Proof. apply decide_ext, elem_of_list_to_set. Qed.

Lemma elem_of_bind_Permutation {J A} (f : J → list A) (l1 l2 : list J) x :
  l1 ≡ₚ l2 → x ∈ l1 ≫= f ↔ x ∈ l2 ≫= f.
Proof.
  intros Hp. rewrite !list_elem_of_bind.
  split; intros (y & Hx & Hy); exists y; split; try done.
  - by rewrite <-Hp.
  - by rewrite Hp.
Qed.

(** C9 (amended). The key space of a new cache is fixed by three sets: the
    roles the jobs name, the pairs discovery jobs reach and the pairs static
    jobs reach.  The identity map and the outer client map have exactly the
    named roles as keys (a role named by a job without regions included); a
    pair reached by a discovery job has a full entry, static-only unset; a
    pair reached by static jobs only has an entry with static-only set; no
    other pair has an entry.  Hence two topologies with the same three sets,
    in particular two that list the same jobs in another order, get the same
    key space. *)
Theorem key_space_order_independent env config fps lg :
  let s := NewSessionCache env config fps lg in
  dom (stscache s) = roleSet config
  ∧ (∀ role v, stscache s !! role = Some v → v = None)
  ∧ dom (clients s) = roleSet config
  ∧ (∀ role region,
       entry s role region
       = if decide ((role, region) ∈ discoverySet config)
         then Some (newClientCache false)
         else if decide ((role, region) ∈ staticSet config)
              then Some (newClientCache true)
              else None)
  ∧ (∀ config',
       roleSet config' = roleSet config →
       discoverySet config' = discoverySet config →
       staticSet config' = staticSet config →
       stscache (NewSessionCache env config' fps lg) = stscache s
       ∧ clients (NewSessionCache env config' fps lg) = clients s)
  ∧ (∀ config',
       Jobs (Discovery config') ≡ₚ Jobs (Discovery config) →
       StaticJobs config' ≡ₚ StaticJobs config →
       stscache (NewSessionCache env config' fps lg) = stscache s
       ∧ clients (NewSessionCache env config' fps lg) = clients s).
Proof.
  intros s. split_and!.
  - apply set_eq; intros r. unfold roleSet, s.
    rewrite elem_of_dom, NewSessionCache_sts_lookup, elem_of_list_to_set.
    destruct (decide (r ∈ allRoles config)); split; try done; by intros [? ?].
  - intros role v. unfold s. rewrite NewSessionCache_sts_lookup.
    destruct (decide _); [|done]. by intros [= <-].
  - apply NewSessionCache_clients_dom.
  - intros role region. unfold s. rewrite NewSessionCache_entry.
    unfold discoverySet, staticSet. by rewrite !decide_list_to_set.
  - unfold roleSet, discoverySet, staticSet. intros config' Hr Hd Hs.
    apply NewSessionCache_keys_ext; by apply list_to_set_eq_elem.
  - intros config' Hd Hs. apply NewSessionCache_keys_ext.
    + intros r. unfold allRoles, discoveryRoles, staticRoles.
      rewrite !elem_of_app.
      by rewrite (elem_of_bind_Permutation _ _ _ _ Hd),
                 (elem_of_bind_Permutation _ _ _ _ Hs).
    + intros p. apply elem_of_bind_Permutation, Hd.
    + intros p. apply elem_of_bind_Permutation, Hs.
Qed.

Lemma key_space_order_independent_holds :
  roleSet topologyB = roleSet topologyA
  ∧ discoverySet topologyB = discoverySet topologyA
  ∧ staticSet topologyB = staticSet topologyA
  ∧ clients (NewSessionCache "" topologyB false {| IsDebugEnabled := false |})
    = clients (NewSessionCache "" topologyA false {| IsDebugEnabled := false |}).
Proof.
  assert (Hr : roleSet topologyB = roleSet topologyA)
    by (apply (bool_decide_unpack _); vm_compute; exact I).
  assert (Hd : discoverySet topologyB = discoverySet topologyA)
    by (apply (bool_decide_unpack _); vm_compute; exact I).
  assert (Hs : staticSet topologyB = staticSet topologyA)
    by (apply (bool_decide_unpack _); vm_compute; exact I).
  split; [exact Hr|]. split; [exact Hd|]. split; [exact Hs|].
  exact (proj2 (proj1 (proj2 (proj2 (proj2 (proj2
           (key_space_order_independent "" topologyA false
              {| IsDebugEnabled := false |})))))
           topologyB Hr Hd Hs)).
Defined.

(** ** Static-only entries *)







Lemma NewSessionCache_staticClean env config fps lg :
  staticClean (NewSessionCache env config fps lg).
Proof.
  intros role region e. rewrite NewSessionCache_entry.
  repeat destruct (decide _); [| |done]; by intros [= <-].
Qed.



(** * Further properties *)

(** ** What a [Refresh] that runs leaves in the cache *)

Lemma sessionCache_eq (s1 s2 : sessionCache) :
  stsRegion s1 = stsRegion s2 → session s1 = session s2 →
  endpointResolver s1 = endpointResolver s2 → stscache s1 = stscache s2 →
  clients s1 = clients s2 → cleared s1 = cleared s2 →
  refreshed s1 = refreshed s2 → fips s1 = fips s2 → logger s1 = logger s2 →
  s1 = s2.
Proof. destruct s1, s2; simpl; congruence. Qed.

Lemma clientCache_eq (e1 e2 : clientCache) :
  onlyStatic e1 = onlyStatic e2 →
  (∀ k, k ≠ STS → slot k e1 = slot k e2) →
  e1 = e2.
Proof.
  intros Hst Hslot.
  pose proof (Hslot CloudWatch) as H1. pose proof (Hslot Tagging) as H2.
  pose proof (Hslot AutoScaling) as H3. pose proof (Hslot EC2) as H4.
  pose proof (Hslot DMS) as H5. pose proof (Hslot APIGateway) as H6.
  destruct e1, e2; simpl in *.
  rewrite Hst, H1, H2, H3, H4, H5, H6 by discriminate. done.
Qed.

Lemma eagerClient_same_config k s s' region role :
  session s' = session s → fips s' = fips s → logger s' = logger s →
  stsRegion s' = stsRegion s →
  eagerClient k s' region role = eagerClient k s region role.
Proof. intros Hs Hf Hl Hr. unfold eagerClient. by rewrite Hs, Hf, Hl, Hr. Qed.

Lemma refreshClients_slots s role region e :
  onlyStatic (refreshClients s role region e).1 = onlyStatic e
  ∧ ∀ k, k ≠ STS →
      slot k (refreshClients s role region e).1
      = if refreshes k e then Some (eagerClient k s region role) else slot k e.
Proof.
  unfold refreshClients.
  change (onlyStatic (setCloudwatch _ e)) with (onlyStatic e).
  destruct (onlyStatic e) eqn:Hst; simpl;
    (split; [done|]); intros k Hk; destruct k; simpl; by rewrite ?Hst.
Qed.

Lemma eagerClient_Refresh k s region role :
  refreshed s = false →
  eagerClient k (Refresh s).1 region role
  = eagerClient k (withSession s) region role.
Proof.
  intros Hr. rewrite Refresh_not_refreshed by done. cbn [fst].
  by apply eagerClient_same_config.
Qed.

Lemma Refresh_sts_lookup s role :
  refreshed s = false →
  stscache (Refresh s).1 !! role
  = (λ _, Some (eagerClient STS (withSession s) "" role)) <$> stscache s !! role.
Proof.
  intros Hr. rewrite Refresh_not_refreshed by done. cbn [fst].
  by rewrite stscache_refreshedState, withSession_stscache.
Qed.

Lemma Refresh_entry s role region :
  refreshed s = false →
  entry (Refresh s).1 role region
  = (λ e, (refreshClients (withSession s) role region e).1)
      <$> entry s role region.
Proof.
  intros Hr. rewrite Refresh_not_refreshed by done. cbn [fst].
  by rewrite entry_refreshedState, withSession_entry.
Qed.

(** X1. A [Refresh] that runs keeps every key and every static-only mark and
    assigns fresh clients, all built with the cache's session handle, flags
    and debug setting: every identity slot, every metrics slot and, for
    entries that are not static-only, the five other slots.  The five other
    slots of a static-only entry keep what they held. *)
Theorem Refresh_rebuilds_slots s :
  refreshed s = false →
  is_Some (session (Refresh s).1)
  ∧ (∀ role,
       stscache (Refresh s).1 !! role
       = (λ _, Some (eagerClient STS (Refresh s).1 "" role))
           <$> stscache s !! role)
  ∧ (∀ role region, entry s role region = None →
       entry (Refresh s).1 role region = None)
  ∧ (∀ role region e, entry s role region = Some e →
       ∃ e', entry (Refresh s).1 role region = Some e'
             ∧ onlyStatic e' = onlyStatic e
             ∧ ∀ k, k ≠ STS →
                 slot k e'
                 = if refreshes k e
                   then Some (eagerClient k (Refresh s).1 region role)
                   else slot k e).
Proof.
  intros Hr. split_and!.
  - rewrite Refresh_session, Hr. eauto.
  - intros role. rewrite eagerClient_Refresh by done.
    by apply Refresh_sts_lookup.
  - intros role region He. by rewrite Refresh_entry, He.
  - intros role region e He. eexists. split_and!.
    + by rewrite Refresh_entry, He.
    + apply refreshClients_slots.
    + intros k Hk. rewrite eagerClient_Refresh by done.
      by apply refreshClients_slots.
Qed.

Lemma Refresh_rebuilds_slots_holds :
  refreshed scenarioCache = false
  ∧ is_Some (session (Refresh scenarioCache).1).
Proof.
  assert (Hr : refreshed scenarioCache = false) by reflexivity.
  split; [exact Hr|].
  exact (proj1 (Refresh_rebuilds_slots scenarioCache Hr)).
Defined.

(** ** Round trips of [Refresh] and [Clear] *)

Lemma clearClients_slots e :
  onlyStatic (clearClients e) = onlyStatic e
  ∧ ∀ k, slot k (clearClients e) = None.
Proof. split; [done|]. by intros []. Qed.

Lemma clearClients_empty e : slotsEmpty e → clearClients e = e.
Proof.
  intros (H1 & H2 & H3 & H4 & H5 & H6). apply clientCache_eq; [done|].
  intros k _. destruct (clearClients_slots e) as [_ ->]. by destruct k.
Qed.

Lemma Refresh_cleared_false s :
  refreshed s = false → cleared (Refresh s).1 = false.
Proof. intros Hr. destruct (Refresh_phase s) as [_ ->]. by rewrite Hr. Qed.

Lemma NewSessionCache_allEmpty env config fps lg :
  allEmpty (NewSessionCache env config fps lg).
Proof.
  split.
  - intros role v. rewrite NewSessionCache_sts_lookup.
    destruct (decide _); [|done]. by intros [= <-].
  - intros role region e. rewrite NewSessionCache_entry.
    repeat destruct (decide _); [| |done]; by intros [= <-].
Qed.

(** X2. On a cache that holds no client, [Refresh] followed by [Clear] gives
    the cache back as it was, but for the session handle [Refresh] created
    and the [cleared] flag: [Clear] undoes everything else [Refresh] did. *)
Theorem Clear_undoes_Refresh s :
  refreshed s = false → allEmpty s →
  Clear (Refresh s).1
  = setPhase true false (setSession (session (Refresh s).1) s).
Proof.
  intros Hr [Hsts Hent].
  pose proof (Refresh_cleared_false s Hr) as Hc.
  destruct (Refresh_config s) as (Hf & Hl & Hsr & Her).
  destruct (Clear_config (Refresh s).1) as (Hf' & Hl' & Hsr' & Her' & Hs').
  destruct (Clear_phase (Refresh s).1) as [Hc' Hr']. rewrite Hc in Hr'.
  apply sessionCache_eq; simpl; try congruence.
  - apply map_eq; intros role. rewrite stscache_Clear by done.
    rewrite Refresh_sts_lookup by done.
    destruct (stscache s !! role) as [v|] eqn:Hv; [|done].
    simpl. by rewrite (Hsts _ _ Hv).
  - apply nested_map_eq.
    + destruct (sameKeys_Clear (Refresh s).1) as (_ & -> & _).
      by destruct (sameKeys_Refresh s) as (_ & -> & _).
    + intros role region.
      change (entry (Clear (Refresh s).1) role region = entry s role region).
      rewrite entry_Clear, Refresh_entry by done.
      destruct (entry s role region) as [e|] eqn:He; [|done].
      simpl. f_equal. rewrite <-(clearClients_empty e) at 2 by eauto.
      apply clientCache_eq.
      * rewrite !(proj1 (clearClients_slots _)).
        apply refreshClients_slots.
      * intros k _. by rewrite !(proj2 (clearClients_slots _)).
Qed.

Lemma Clear_undoes_Refresh_holds :
  refreshed scenarioCache = false
  ∧ allEmpty scenarioCache
  ∧ Clear (Refresh scenarioCache).1
    = setPhase true false
        (setSession (session (Refresh scenarioCache).1) scenarioCache).
Proof.
  assert (Hr : refreshed scenarioCache = false) by reflexivity.
  assert (He : allEmpty scenarioCache) by apply NewSessionCache_allEmpty.
  split; [exact Hr|]. split; [exact He|].
  exact (Clear_undoes_Refresh scenarioCache Hr He).
Defined.

Lemma elem_of_stsCalls s c :
  c ∈ stsCalls s
  ↔ ∃ role, is_Some (stscache s !! role)
            ∧ c = call_createStsSession (session s) role (stsRegion s) (fips s)
                    (IsDebugEnabled (logger s)).
Proof.
  unfold stsCalls. rewrite list_elem_of_bind. split.
  - intros ([role v] & Hc & Hin). apply elem_of_map_to_list in Hin.
    apply list_elem_of_singleton in Hc. exists role. eauto.
  - intros (role & [v Hv] & ->). exists (role, v). split.
    + by apply list_elem_of_singleton.
    + by apply elem_of_map_to_list.
Qed.

Lemma elem_of_clientCalls s c :
  c ∈ clientCalls s
  ↔ ∃ role region e, entry s role region = Some e
                     ∧ c ∈ (refreshClients s role region e).2.
Proof.
  unfold clientCalls, regionCalls, entry, lookupEntry.
  rewrite list_elem_of_bind. split.
  - intros ([role regions] & Hc & Hin). apply elem_of_map_to_list in Hin.
    apply list_elem_of_bind in Hc as ([region e] & Hc & Hin').
    apply elem_of_map_to_list in Hin'. exists role, region, e.
    simpl in *. by rewrite Hin.
  - intros (role & region & e & He & Hc).
    destruct (clients s !! role) as [regions|] eqn:Hrole; [|done].
    exists (role, regions). split; [|by apply elem_of_map_to_list].
    apply list_elem_of_bind. exists (region, e).
    split; [done|by apply elem_of_map_to_list].
Qed.

Lemma refreshClients_calls_same s s' role region e e' :
  session s' = session s → fips s' = fips s → logger s' = logger s →
  onlyStatic e' = onlyStatic e →
  (refreshClients s' role region e').2 = (refreshClients s role region e).2.
Proof.
  intros Hs Hf Hl Hst. unfold refreshClients.
  change (onlyStatic (setCloudwatch _ e')) with (onlyStatic e').
  change (onlyStatic (setCloudwatch _ e)) with (onlyStatic e).
  rewrite Hs, Hf, Hl, Hst. by destruct (onlyStatic e).
Qed.

Lemma refreshes_same k e e' :
  onlyStatic e' = onlyStatic e → refreshes k e' = refreshes k e.
Proof. intros Hst. destruct k; simpl; by rewrite ?Hst. Qed.

Lemma withSession_Some s h : session s = Some h → withSession s = s.
Proof. intros Hs. unfold withSession. by rewrite Hs. Qed.

Lemma Refresh_calls_not_session s c :
  c ∈ stsCalls s ++ clientCalls s → isSessionCall c = false.
Proof.
  intros [Hc|Hc]%elem_of_app.
  - apply elem_of_stsCalls in Hc as (role & _ & ->). done.
  - apply elem_of_clientCalls in Hc as (role & region & e & _ & Hc).
    revert c Hc. apply Forall_forall. by apply refreshClients_calls.
Qed.

(** X3. On a cache whose static-only entries hold at most a metrics client,
    [Refresh], [Clear], [Refresh] ends in the state the first [Refresh] left:
    the second [Refresh] is a full rebuild.  It makes the builder calls the
    first one made, except that it does not create a session handle. *)
Theorem Refresh_Clear_Refresh s :
  refreshed s = false → staticClean s →
  (Refresh (Clear (Refresh s).1)).1 = (Refresh s).1
  ∧ ∀ c, c ∈ (Refresh (Clear (Refresh s).1)).2
         ↔ c ∈ (Refresh s).2 ∧ isSessionCall c = false.
Proof.
  intros Hr Hclean.
  pose proof (Refresh_cleared_false s Hr) as Hc.
  destruct (Clear_phase (Refresh s).1) as [_ Hr2]. rewrite Hc in Hr2.
  destruct (Clear_config (Refresh s).1) as (Hf2 & Hl2 & Hsr2 & Her2 & Hs2).
  destruct (Refresh_config s) as (Hf1 & Hl1 & Hsr1 & Her1).
  destruct (withSession_config s) as (Hfw & Hlw & Hsrw & _).
  pose proof (Refresh_session s) as Hs1. rewrite Hr in Hs1.
  pose proof (withSession_session s) as Hsw.
  assert (Hws : withSession (Clear (Refresh s).1) = Clear (Refresh s).1)
    by (eapply withSession_Some; by rewrite Hs2, Hs1).
  assert (Hentry : ∀ role region,
    entry (Clear (Refresh s).1) role region
    = (λ e, clearClients (refreshClients (withSession s) role region e).1)
        <$> entry s role region).
  { intros role region. rewrite entry_Clear, Refresh_entry by done.
    by destruct (entry s role region). }
  split.
  - destruct (Refresh_config (Clear (Refresh s).1)) as (Hf3 & Hl3 & Hsr3 & Her3).
    destruct (Refresh_phase (Clear (Refresh s).1)) as [Hr3 Hc3].
    rewrite Hr2 in Hc3. destruct (Refresh_phase s) as [Hr1 _].
    apply sessionCache_eq; try congruence.
    + rewrite Refresh_session, Hr2, Hs2, Hs1. done.
    + apply map_eq; intros role.
      rewrite !Refresh_sts_lookup, stscache_Clear, Refresh_sts_lookup, Hws
        by done.
      destruct (stscache s !! role); [|done]. simpl. do 2 f_equal.
      apply (eagerClient_same_config STS _ _ ""); congruence.
    + apply nested_map_eq.
      * destruct (sameKeys_Refresh (Clear (Refresh s).1)) as (_ & -> & _).
        by destruct (sameKeys_Clear (Refresh s).1) as (_ & -> & _).
      * intros role region.
        change (entry (Refresh (Clear (Refresh s).1)).1 role region
                = entry (Refresh s).1 role region).
        rewrite !Refresh_entry, Hentry, Hws by done.
        destruct (entry s role region) as [e|] eqn:He; [|done].
        simpl. f_equal.
        destruct (refreshClients_slots (withSession s) role region e)
          as [Hst Hsl].
        destruct (clearClients_slots
                    (refreshClients (withSession s) role region e).1)
          as [Hstc Hslc].
        apply clientCache_eq.
        -- rewrite (proj1 (refreshClients_slots _ _ _ _)). congruence.
        -- intros k Hk.
           rewrite (proj2 (refreshClients_slots _ _ _ _)), Hsl, Hslc by done.
           rewrite (refreshes_same k e) by congruence.
           destruct (refreshes k e) eqn:Hk'.
           ++ f_equal. apply eagerClient_same_config; congruence.
           ++ assert (Hst' : onlyStatic e = true).
              { destruct k; try done; simpl in Hk';
                  by apply negb_false_iff in Hk'. }
              destruct (Hclean _ _ _ He Hst') as (? & ? & ? & ? & ?).
              destruct k; try done; simpl in Hk'; by rewrite ?Hst' in Hk'.
  - intros c. rewrite (Refresh_not_refreshed (Clear (Refresh s).1) Hr2).
    cbn [snd]. rewrite Hws. unfold sessionCalls at 1. rewrite Hs2, Hs1.
    cbn [app].
    assert (Hsame : c ∈ stsCalls (Clear (Refresh s).1)
                        ++ clientCalls (Clear (Refresh s).1)
                    ↔ c ∈ stsCalls (withSession s) ++ clientCalls (withSession s)).
    { rewrite !elem_of_app, !elem_of_stsCalls, !elem_of_clientCalls.
      f_equiv.
      - split; intros (role & Hsome & ->); exists role.
        + rewrite stscache_Clear, Refresh_sts_lookup in Hsome by done.
          rewrite withSession_stscache. split.
          * destruct (stscache s !! role); [eauto|by destruct Hsome].
          * f_equal; congruence.
        + rewrite withSession_stscache in Hsome.
          rewrite stscache_Clear, Refresh_sts_lookup by done. split.
          * destruct Hsome as [v ->]. simpl. eauto.
          * f_equal; congruence.
      - split.
        + intros (role & region & e2 & He2 & Hin). rewrite Hentry in He2.
          destruct (entry s role region) as [e|] eqn:He; [|done].
          injection He2 as <-. exists role, region, e.
          rewrite withSession_entry. split; [done|].
          rewrite <-(refreshClients_calls_same (withSession s)
                       (Clear (Refresh s).1) role region e
                       (clearClients
                          (refreshClients (withSession s) role region e).1));
            [done|congruence..|].
          rewrite (proj1 (clearClients_slots _)).
          apply refreshClients_slots.
        + intros (role & region & e & He & Hin).
          rewrite withSession_entry in He.
          exists role, region,
            (clearClients (refreshClients (withSession s) role region e).1).
          rewrite Hentry, He. split; [done|].
          rewrite (refreshClients_calls_same (withSession s)
                     (Clear (Refresh s).1) role region e);
            [done|congruence..|].
          rewrite (proj1 (clearClients_slots _)).
          apply refreshClients_slots. }
    rewrite Hsame, (Refresh_not_refreshed s Hr). cbn [snd]. split.
    + intros Hin. split; [|by eapply Refresh_calls_not_session].
      apply elem_of_app. by right.
    + intros [[Hin|Hin]%elem_of_app Hns]; [|done].
      unfold sessionCalls in Hin. destruct (session s); [by apply elem_of_nil in Hin|].
      apply list_elem_of_singleton in Hin as ->. done.
Qed.

Lemma Refresh_Clear_Refresh_holds :
  refreshed scenarioCache = false
  ∧ staticClean scenarioCache
  ∧ (Refresh (Clear (Refresh scenarioCache).1)).1 = (Refresh scenarioCache).1.
Proof.
  assert (Hr : refreshed scenarioCache = false) by reflexivity.
  assert (Hc : staticClean scenarioCache) by apply NewSessionCache_staticClean.
  split; [exact Hr|]. split; [exact Hc|].
  exact (proj1 (Refresh_Clear_Refresh scenarioCache Hr Hc)).
Defined.

(** ** Accessors *)





(** ** Reads of a refreshed cache *)








(** ** Stored clients and their keys *)










(** ** Runs that do not fail *)






(** ** The builder calls of [Refresh] *)

Lemma refreshClients_call_list s role region e :
  (refreshClients s role region e).2
  = (λ k, eagerCall k s region role)
      <$> (if onlyStatic e then [CloudWatch]
           else [CloudWatch; Tagging; AutoScaling; EC2; DMS; APIGateway]).
Proof.
  unfold refreshClients.
  change (onlyStatic (setCloudwatch _ e)) with (onlyStatic e).
  by destruct (onlyStatic e).
Qed.

Lemma elem_of_refreshClients_calls s role region e c :
  c ∈ (refreshClients s role region e).2
  ↔ ∃ k, refreshes k e = true ∧ c = eagerCall k s region role.
Proof.
  rewrite refreshClients_call_list, list_elem_of_fmap. unfold refreshes.
  split.
  - intros (k & -> & Hk). exists k. split; [|done].
    destruct (onlyStatic e).
    + by apply list_elem_of_singleton in Hk as ->.
    + destruct k; try done. by repeat (apply elem_of_cons in Hk as [?|Hk]);
        try apply elem_of_nil in Hk.
  - intros (k & Hk & ->). exists k. split; [done|].
    destruct (onlyStatic e), k; try done; set_solver.
Qed.

Lemma length_refreshClients_calls s role region e :
  length (refreshClients s role region e).2 = refreshCost e.
Proof.
  rewrite refreshClients_call_list, length_fmap. unfold refreshCost.
  by destruct (onlyStatic e).
Qed.

Lemma length_bind_with {A B C} (f : A → list B) (g : A → list C)
    (h : C → nat) (l : list A) :
  (∀ x, length (f x) = sum_list_with h (g x)) →
  length (l ≫= f) = sum_list_with h (l ≫= g).
Proof.
  intros Hfg. induction l as [|x l IH]; [done|].
  by rewrite !bind_cons, length_app, sum_list_with_app, Hfg, IH.
Qed.

Lemma eagerCall_same_config k s s' region role :
  session s' = session s → fips s' = fips s → logger s' = logger s →
  stsRegion s' = stsRegion s →
  eagerCall k s' region role = eagerCall k s region role.
Proof. intros Hs Hf Hl Hr. unfold eagerCall. by rewrite Hs, Hf, Hl, Hr. Qed.

Lemma eagerCall_Refresh k s region role :
  refreshed s = false →
  eagerCall k (Refresh s).1 region role
  = eagerCall k (withSession s) region role.
Proof.
  intros Hr. rewrite Refresh_not_refreshed by done. cbn [fst].
  by apply eagerCall_same_config.
Qed.

(** X8. A [Refresh] that runs calls [createAWSSession] exactly when the cache
    has no session handle, the identity builder for every role of the
    identity map, the metrics builder for every entry and the five other
    builders for every entry that is not static-only, each with the handle
    and settings of the refreshed cache, and makes no other call.  That is
    one call per role, one per static-only entry and six per other entry,
    plus one if the handle was absent. *)
Theorem Refresh_builder_calls s :
  refreshed s = false →
  (∀ c, c ∈ (Refresh s).2
        ↔ (session s = None
           ∧ c = call_createAWSSession (endpointResolver s)
                   (IsDebugEnabled (logger s)))
          ∨ (∃ role, role ∈ dom (stscache s)
                     ∧ c = eagerCall STS (Refresh s).1 "" role)
          ∨ (∃ role region e k, entry s role region = Some e
                     ∧ refreshes k e = true
                     ∧ c = eagerCall k (Refresh s).1 region role))
  ∧ length (Refresh s).2
    = sessionBudget s + size (stscache s)
      + sum_list_with refreshCost (entriesOf s).
Proof.
  intros Hr. split.
  - intros c. rewrite (Refresh_not_refreshed s Hr) at 1. cbn [snd].
    rewrite !elem_of_app, elem_of_stsCalls, elem_of_clientCalls.
    assert (Hor : ∀ A A' B B' C C' : Prop,
              (A ↔ A') → (B ↔ B') → (C ↔ C') → (A ∨ B ∨ C ↔ A' ∨ B' ∨ C'))
      by (intros; tauto).
    apply Hor; clear Hor.
    + unfold sessionCalls. destruct (session s).
      * split; [by intros ?%elem_of_nil|by intros [? _]].
      * rewrite list_elem_of_singleton. split; [by intros ->|by intros [_ ->]].
    + split; intros (role & Hrole & ->); exists role;
        rewrite withSession_stscache, <-elem_of_dom in *;
        by rewrite (eagerCall_Refresh STS) by done.
    + split.
      * intros (role & region & e & He & Hc). rewrite withSession_entry in He.
        apply elem_of_refreshClients_calls in Hc as (k & Hk & ->).
        exists role, region, e, k. by rewrite eagerCall_Refresh.
      * intros (role & region & e & k & He & Hk & ->).
        exists role, region, e. rewrite withSession_entry. split; [done|].
        apply elem_of_refreshClients_calls. exists k.
        by rewrite eagerCall_Refresh.
  - rewrite (Refresh_not_refreshed s Hr). cbn [snd].
    rewrite !length_app, Nat.add_assoc. f_equal; [f_equal|].
    + unfold sessionCalls, sessionBudget. by destruct (session s).
    + unfold stsCalls. rewrite withSession_stscache.
      rewrite <-length_map_to_list.
      induction (map_to_list (stscache s)) as [|x l IH]; [done|].
      rewrite bind_cons. simpl. by rewrite IH.
    + unfold clientCalls, entriesOf.
      assert (Hcl : clients (withSession s) = clients s)
        by (unfold withSession; by destruct (session s)).
      rewrite Hcl. apply length_bind_with. intros [role regions].
      unfold regionCalls. cbn [fst snd].
      induction (map_to_list regions) as [|[region e] l IH]; [done|].
      rewrite bind_cons, length_app, fmap_cons. simpl.
      by rewrite IH, length_refreshClients_calls.
Qed.

Lemma Refresh_builder_calls_holds :
  refreshed scenarioCache = false
  ∧ length (Refresh scenarioCache).2
    = sessionBudget scenarioCache + size (stscache scenarioCache)
      + sum_list_with refreshCost (entriesOf scenarioCache).
Proof.
  assert (Hr : refreshed scenarioCache = false) by reflexivity.
  split; [exact Hr|].
  exact (proj2 (Refresh_builder_calls scenarioCache Hr)).
Defined.

(** ** Accessor calls on different slots *)












(** ** Roles and credentials *)



(** ** A new cache after its first [Refresh] *)

Lemma Refresh_entry_slots s role region e :
  refreshed s = false → entry s role region = Some e →
  ∃ e', entry (Refresh s).1 role region = Some e'
        ∧ onlyStatic e' = onlyStatic e
        ∧ ∀ k, k ≠ STS →
            slot k e'
            = if refreshes k e
              then Some (eagerClient k (Refresh s).1 region role)
              else slot k e.
Proof.
  intros Hr He. eexists. split_and!.
  - by rewrite Refresh_entry, He.
  - apply refreshClients_slots.
  - intros k Hk. rewrite eagerClient_Refresh by done.
    by apply refreshClients_slots.
Qed.

(** X12. After the constructor and one [Refresh]: [GetSTS] on every role a
    job names, every regional accessor on every pair a discovery job reaches
    and [GetCloudwatch] on every pair a static job reaches are hits, which
    return the client [Refresh] built and call no builder.  On a pair only
    static jobs reach, the five other accessors miss and build their client
    lazily; on a pair no job reaches, every regional accessor fails. *)
Theorem first_Refresh_serves_topology env config fps lg :
  let s := (Refresh (NewSessionCache env config fps lg)).1 in
  (∀ region role, role ∈ roleSet config →
     accessor STS region role s = Returned (eagerClient STS s "" role) s [])
  ∧ (∀ k region role, k ≠ STS → (role, region) ∈ discoverySet config →
       accessor k (Some region) role s
       = Returned (eagerClient k s region role) s [])
  ∧ (∀ region role, (role, region) ∈ staticSet config →
       accessor CloudWatch (Some region) role s
       = Returned (eagerClient CloudWatch s region role) s [])
  ∧ (∀ k region role, k ≠ STS → k ≠ CloudWatch →
       (role, region) ∈ staticSet config →
       (role, region) ∉ discoverySet config →
       ∃ s', accessor k (Some region) role s
             = Returned (lazyClient k s region role) s'
                 [lazyCall k s region role])
  ∧ (∀ k region role, k ≠ STS →
       (role, region) ∉ discoverySet config →
       (role, region) ∉ staticSet config →
       accessor k (Some region) role s
       = Panicked [lazyCall k s region role]).
Proof.
  intros s.
  assert (Hr : refreshed (NewSessionCache env config fps lg) = false) by done.
  assert (He0 : ∀ role region,
    entry (NewSessionCache env config fps lg) role region
    = if decide ((role, region) ∈ discoverySet config)
      then Some (newClientCache false)
      else if decide ((role, region) ∈ staticSet config)
           then Some (newClientCache true) else None).
  { intros role region. rewrite NewSessionCache_entry.
    unfold discoverySet, staticSet. by rewrite !decide_list_to_set. }
  assert (Hhit : ∀ k region role e, k ≠ STS →
    entry (NewSessionCache env config fps lg) role region = Some e →
    refreshes k e = true →
    accessor k (Some region) role s
    = Returned (eagerClient k s region role) s []).
  { intros k region role e Hk He Hre.
    destruct (Refresh_entry_slots _ _ _ _ Hr He) as (e' & He' & _ & Hsl).
    fold s in He', Hsl. rewrite accessor_regional, He', Hsl by done.
    by rewrite Hre. }
  split_and!.
  - intros region role Hrole. rewrite accessor_STS. unfold s.
    rewrite Refresh_sts_lookup, NewSessionCache_sts_lookup by done.
    apply elem_of_list_to_set in Hrole. rewrite decide_True by done.
    cbn [fmap option_fmap option_map].
    by rewrite <-(eagerClient_Refresh STS) by done.
  - intros k region role Hk Hd. apply (Hhit _ _ _ (newClientCache false) Hk).
    + by rewrite He0, decide_True.
    + by destruct k.
  - intros region role Hst.
    destruct (decide ((role, region) ∈ discoverySet config)) as [Hd|Hd].
    + apply (Hhit _ _ _ (newClientCache false)); [done| |done].
      by rewrite He0, decide_True.
    + apply (Hhit _ _ _ (newClientCache true)); [done| |done].
      by rewrite He0, decide_False, decide_True.
  - intros k region role Hk Hcw Hst Hd.
    assert (He : entry (NewSessionCache env config fps lg) role region
                 = Some (newClientCache true))
      by (by rewrite He0, decide_False, decide_True).
    destruct (Refresh_entry_slots _ _ _ _ Hr He) as (e' & He' & _ & Hsl).
    fold s in He', Hsl. rewrite accessor_regional, He', Hsl by done.
    destruct k; try done; eauto.
  - intros k region role Hk Hd Hst. rewrite accessor_regional by done.
    unfold s. rewrite Refresh_entry, He0 by done.
    by rewrite !decide_False.
Qed.

Lemma first_Refresh_serves_topology_holds :
  (roleX, "us-east-1") ∈ discoverySet scenario
  ∧ accessor EC2 (Some "us-east-1") roleX (Refresh scenarioCache).1
    = Returned (eagerClient EC2 (Refresh scenarioCache).1 "us-east-1" roleX)
        (Refresh scenarioCache).1 [].
Proof.
  assert (Hd : (roleX, "us-east-1") ∈ discoverySet scenario)
    by (apply (bool_decide_unpack _); vm_compute; exact I).
  assert (Hk : EC2 ≠ STS) by discriminate.
  split; [exact Hd|].
  exact (proj1 (proj2 (first_Refresh_serves_topology "" scenario true
                         {| IsDebugEnabled := false |}))
           EC2 "us-east-1" roleX Hk Hd).
Defined.

(** ** The two ways a client is built *)



(** ** The keys of the identity map over a run *)







